(** * Resumable chunked upload server: a model of [backend/server.js]

    The development embeds the three request paths of the upload server
    ([POST /api/upload/init], [POST /api/upload/chunk], [finalizeUpload])
    and the periodic [cleanupOldUploads] job as executable functions over an
    explicit world: the two MongoDB collections, the upload directory, the
    scratch directory and a chronological trace of the effects performed.

    Conventions.
    - A collection is a list of documents in insertion order; [find] keeps
      that order, [findOne] and [updateOne] act on the first match.
    - Timestamps ([new Date()], [Date.now()], [mtimeMs]) are integers in
      milliseconds, handed to each handler as [now].
    - [Math.ceil(fileSize / CHUNK_SIZE)] is taken over the rationals.  For
      integer sizes below 2^53 the double-precision quotient has the same
      ceiling, so the model is exact on every size JavaScript can hold
      as a safe integer.
    - SHA-256 is symbolic: a digest records the bytes it was computed from.
    - Paths are POSIX paths.  A target file is kept under the string
      [path.join(UPLOAD_DIR, id)] returns, so two ids that join to the same
      path share one file; two different normalised paths are taken to name
      two different files (no links, and no id that walks out of the
      working directory and back into it by name).  Scratch files are kept
      by the name multer gives them, sixteen random bytes in hex that no
      request can name, and the scratch directory is taken to hold nothing
      but those spools.
    - A number that comes out of [parseInt] is [NaN], an infinity or an
      integer; products are exact, which is what the double-precision
      product is wherever the model looks at it (up to 2^53).
    - Store outages are not modelled; the only store error is a violation
      of a unique index declared in [database.js]. *)

From Stdlib Require Import ZArith Lia Ascii.
From Stdlib Require QArith.QArith_base QArith.Qround.
From stdpp Require Import gmap strings list fin_maps.

Local Open Scope Z_scope.

(** ** Numbers and paths of the JavaScript side *)

(** What [parseInt(text)] and [chunkIdx * CHUNK_SIZE] can be. *)
Inductive number := NaN | Infinity (negative : bool) | Int (z : Z).

Global Instance number_eq_dec : EqDecision number.
Proof. solve_decision. Defined.

(** [Number.MAX_SAFE_INTEGER] *)
Definition MAX_SAFE_INTEGER : Z := 2 ^ 53 - 1.

(** [path.split('/')] *)
Fixpoint split_slash (s : string) : list string :=
  match s with
  | EmptyString => [EmptyString]
  | String c s' =>
      if Ascii.eqb c "/"%char then EmptyString :: split_slash s'
      else match split_slash s' with
           | seg :: segs => String c seg :: segs
           | [] => [String c EmptyString]
           end
  end.

(** One segment of Node's [normalizeString]; [res] holds the segments kept
    so far, the last one first.  Empty segments and [.] are dropped, [..]
    takes the last segment away, or is kept when there is none to take and
    the path is relative. *)
Definition push_segment (allowAboveRoot : bool) (res : list string) (seg : string)
    : list string :=
  if decide (seg = "" \/ seg = ".") then res
  else if decide (seg = "..") then
    match res with
    | last :: res' => if decide (last = "..") then ".." :: res else res'
    | [] => if allowAboveRoot then [".."] else []
    end
  else seg :: res.

Fixpoint ends_with_slash (s : string) : bool :=
  match s with
  | EmptyString => false
  | String c s' =>
      match s' with
      | EmptyString => Ascii.eqb c "/"%char
      | _ => ends_with_slash s'
      end
  end.

(** [path.posix.normalize(path)] *)
Definition normalize (path : string) : string :=
  match path with
  | EmptyString => "."
  | String c _ =>
      let isAbsolute := Ascii.eqb c "/"%char in
      let trailingSeparator := ends_with_slash path in
      let res := String.concat "/"
                   (reverse (foldl (push_segment (negb isAbsolute)) []
                                   (split_slash path))) in
      match res with
      | EmptyString =>
          if isAbsolute then "/" else if trailingSeparator then "./" else "."
      | _ => (if isAbsolute then "/" else "") +:+ res +:+
             (if trailingSeparator then "/" else "")
      end
  end.

(** [path.posix.join(a, b)] *)
Definition path_join (a b : string) : string :=
  match a, b with
  | EmptyString, EmptyString => "."
  | EmptyString, _ => normalize b
  | _, EmptyString => normalize a
  | _, _ => normalize (a +:+ "/" +:+ b)
  end.

Definition UPLOAD_DIR : string := "./uploads".

(** [path.join(UPLOAD_DIR, id)]: the [targetPath] of line 127 and the
    [filePath] of line 298. *)
Definition target_path (uploadId : string) : string :=
  path_join UPLOAD_DIR uploadId.

Arguments target_path : simpl never.

Fixpoint has_slash (s : string) : bool :=
  match s with
  | EmptyString => false
  | String c s' => Ascii.eqb c "/"%char || has_slash s'
  end.

(** A plain file name: not empty, not [.] or [..], and without a
    separator. *)
Definition plain_name (s : string) : bool :=
  negb (has_slash s) && negb (bool_decide (s = "" \/ s = "." \/ s = "..")).

Definition TEMP_DIR : string := "./temp".

Fixpoint strip_prefix (p s : string) : option string :=
  match p, s with
  | EmptyString, _ => Some s
  | String a p', String b s' => if Ascii.eqb a b then strip_prefix p' s' else None
  | _, _ => None
  end.

(** A path [path.join(TEMP_DIR, file)] for an entry [file] of
    [readdir(TEMP_DIR)]: what the scratch sweep of lines 309-316 looks
    at. *)
Definition in_temp_dir (q : string) : bool :=
  match strip_prefix (path_join TEMP_DIR "") q with
  | Some (String c rest) =>
      Ascii.eqb c "/"%char && negb (has_slash rest) && negb (bool_decide (rest = ""))
  | _ => false
  end.

(** ** Documents *)

Inductive upload_status := UPLOADING | PROCESSING | COMPLETED | FAILED.
Inductive chunk_status := PENDING | RECEIVED.

Global Instance upload_status_eq_dec : EqDecision upload_status.
Proof. solve_decision. Defined.
Global Instance chunk_status_eq_dec : EqDecision chunk_status.
Proof. solve_decision. Defined.

(** A target file is sparse: bytes that were never written read as zero. *)
Record file := { data : gmap Z Byte.byte; size : Z }.

(** The symbolic digest of [calculateFileHash]. *)
Inductive digest := SHA256 (content : file).

(** A document of the [uploads] collection. *)
Record upload_doc := {
  id : string;
  filename : string;
  total_size : Z;
  total_chunks : Z;
  status : upload_status;
  final_hash : option digest;
  created_at : Z;
  updated_at : Z
}.

(** A document of the [chunks] collection; [cstatus] is its [status] field. *)
Record chunk_doc := {
  upload_id : string;
  chunk_index : N;
  cstatus : chunk_status;
  received_at : option Z
}.

(** A spooled multipart part in [TEMP_DIR]. *)
Record temp_file := { tdata : list Byte.byte; mtime : Z }.

(** ** Effects, in the order the server performs them *)

Inductive event :=
| EvInsertUpload (uid : string)
| EvInsertChunk (uid : string) (idx : N)
| EvFileOpen (path : string)
| EvFileWrite (path : string) (position : Z) (len : nat)
| EvUnlinkTemp (path : string)
| EvUpdateChunk (uid : string) (idx : number) (matched : bool)
| EvUpdateUpload (uid : string) (st : upload_status) (h : option digest)
| EvUnlinkTarget (path : string)
| EvDeleteUploads (uids : list string).

(** [upload_dir] holds the target files, each under the path the handlers
    open it by; [temp_dir] holds multer's spools, each under its name. *)
Record world := {
  uploads : list upload_doc;
  chunks : list chunk_doc;
  upload_dir : gmap string file;
  temp_dir : gmap string temp_file;
  trace : list event
}.

Definition CHUNK_SIZE : Z := 5 * 1024 * 1024.

(** ** Files *)

Definition empty_file : file := {| data := ∅; size := 0 |}.

Fixpoint write_bytes (m : gmap Z Byte.byte) (pos : Z) (bs : list Byte.byte) : gmap Z Byte.byte :=
  match bs with
  | [] => m
  | b :: bs' => write_bytes (<[pos := b]> m) (pos + 1) bs'
  end.

(** A write of [bs] at byte [offset]: an empty buffer writes nothing and
    does not extend the file. *)
Definition pwrite (f : file) (offset : Z) (bs : list Byte.byte) : file :=
  match bs with
  | [] => f
  | _ => {| data := write_bytes (data f) offset bs;
            size := Z.max (size f) (offset + Z.of_nat (length bs)) |}
  end.

Definition read_byte (f : file) (pos : Z) : option Byte.byte :=
  if decide (0 <= pos < size f)
  then Some (default Byte.x00 (data f !! pos))
  else None.

(** Where [fileHandle.write(buf, 0, buf.length, position)] writes through a
    handle that was just opened.  A [position] that is a safe integer and
    not negative is the byte offset.  Any other number ([NaN], an infinity,
    an integer past [MAX_SAFE_INTEGER], a negative integer) makes the write
    go to the current position of the handle, which is the start of the
    file. *)
Definition write_position (position : number) : Z :=
  match position with
  | Int z => if decide (0 <= z <= MAX_SAFE_INTEGER) then z else 0
  | _ => 0
  end.

(** ** The handler monad: state with exceptions *)

Inductive result (A : Type) := Ok (a : A) | Thrown.
Arguments Ok {A} a.
Arguments Thrown {A}.

Definition M (A : Type) : Type := world -> result A * world.

Definition ret {A} (a : A) : M A := fun w => (Ok a, w).
Definition throw {A} : M A := fun w => (Thrown, w).
Definition bind {A B} (m : M A) (k : A -> M B) : M B :=
  fun w => match m w with
           | (Ok a, w') => k a w'
           | (Thrown, w') => (Thrown, w')
           end.
Definition try_catch {A} (m : M A) (h : M A) : M A :=
  fun w => match m w with
           | (Ok a, w') => (Ok a, w')
           | (Thrown, w') => h w'
           end.
Definition gets {A} (f : world -> A) : M A := fun w => (Ok (f w), w).
Definition modify (f : world -> world) : M unit := fun w => (Ok tt, f w).

Notation "x <- m ;; k" := (bind m (fun x => k))
  (at level 100, m at next level, right associativity).
Notation "m ;;; k" := (bind m (fun _ => k))
  (at level 100, right associativity).

Definition emit (e : event) : M unit :=
  modify (fun w => {| uploads := uploads w; chunks := chunks w;
                      upload_dir := upload_dir w; temp_dir := temp_dir w;
                      trace := trace w ++ [e] |}).
Definition set_uploads (us : list upload_doc) : M unit :=
  modify (fun w => {| uploads := us; chunks := chunks w;
                      upload_dir := upload_dir w; temp_dir := temp_dir w;
                      trace := trace w |}).
Definition set_chunks (cs : list chunk_doc) : M unit :=
  modify (fun w => {| uploads := uploads w; chunks := cs;
                      upload_dir := upload_dir w; temp_dir := temp_dir w;
                      trace := trace w |}).
Definition set_upload_dir (d : gmap string file) : M unit :=
  modify (fun w => {| uploads := uploads w; chunks := chunks w;
                      upload_dir := d; temp_dir := temp_dir w;
                      trace := trace w |}).
Definition set_temp_dir (d : gmap string temp_file) : M unit :=
  modify (fun w => {| uploads := uploads w; chunks := chunks w;
                      upload_dir := upload_dir w; temp_dir := d;
                      trace := trace w |}).

(** ** The store ([database.js]: unique index on [uploads.id] and on
       [chunks.(upload_id, chunk_index)]) *)

Definition has_id (uid : string) (u : upload_doc) : bool :=
  bool_decide (id u = uid).

(** A stored [chunk_index] equals the number [chunkIdx]. *)
Definition index_is (chunkIdx : number) (i : N) : bool :=
  match chunkIdx with
  | Int z => bool_decide (Z.of_N i = z)
  | _ => false
  end.

(** The query [{upload_id: uid, chunk_index: chunkIdx}], and the key of the
    unique index on [chunks]. *)
Definition chunk_matches (uid : string) (chunkIdx : number) (c : chunk_doc) : bool :=
  bool_decide (upload_id c = uid) && index_is chunkIdx (chunk_index c).

Definition of_upload (uid : string) (c : chunk_doc) : bool :=
  bool_decide (upload_id c = uid).

Definition is_received (c : chunk_doc) : bool :=
  bool_decide (cstatus c = RECEIVED).

(** [collection.findOne(q)] *)
Definition findOne {A} (q : A -> bool) (coll : list A) : option A :=
  List.find q coll.

(** [collection.find(q).toArray()] *)
Definition find_all {A} (q : A -> bool) (coll : list A) : list A :=
  List.filter q coll.

(** [collection.updateOne(q, {$set: ...})]: the first match is rewritten. *)
Fixpoint updateOne {A} (q : A -> bool) (upd : A -> A) (coll : list A) : list A :=
  match coll with
  | [] => []
  | d :: coll' => if q d then upd d :: coll' else d :: updateOne q upd coll'
  end.

(** [collection.deleteMany(q)] *)
Definition deleteMany {A} (q : A -> bool) (coll : list A) : list A :=
  List.filter (fun d => negb (q d)) coll.

(** [uploads.insertOne(doc)] under the unique index on [id]. *)
Definition insertOne_upload (doc : upload_doc) : M unit :=
  us <- gets uploads;;
  if existsb (has_id (id doc)) us then throw
  else set_uploads (us ++ [doc]);;; emit (EvInsertUpload (id doc)).

(** [chunks.insertMany(docs)]: ordered, stops at the first duplicate key and
    keeps what was inserted before it. *)
Fixpoint insertMany_chunks (docs : list chunk_doc) : M unit :=
  match docs with
  | [] => ret tt
  | d :: docs' =>
      cs <- gets chunks;;
      if existsb (chunk_matches (upload_id d) (Int (Z.of_N (chunk_index d)))) cs
      then throw
      else set_chunks (cs ++ [d]);;;
           emit (EvInsertChunk (upload_id d) (chunk_index d));;;
           insertMany_chunks docs'
  end.

Definition set_status (st : upload_status) (now : Z) (u : upload_doc) : upload_doc :=
  {| id := id u; filename := filename u; total_size := total_size u;
     total_chunks := total_chunks u; status := st;
     final_hash := final_hash u; created_at := created_at u;
     updated_at := now |}.

Definition set_completed (h : digest) (now : Z) (u : upload_doc) : upload_doc :=
  {| id := id u; filename := filename u; total_size := total_size u;
     total_chunks := total_chunks u; status := COMPLETED;
     final_hash := Some h; created_at := created_at u;
     updated_at := now |}.

Definition set_received (now : Z) (c : chunk_doc) : chunk_doc :=
  {| upload_id := upload_id c; chunk_index := chunk_index c;
     cstatus := RECEIVED; received_at := Some now |}.

Definition update_upload (uid : string) (upd : upload_doc -> upload_doc)
    (st : upload_status) (h : option digest) : M unit :=
  us <- gets uploads;;
  set_uploads (updateOne (has_id uid) upd us);;;
  emit (EvUpdateUpload uid st h).

(** ** Scratch and target files *)

(** [fs.unlink(tempPath)]: throws when the file is not there. *)
Definition unlink_temp (p : string) : M unit :=
  d <- gets temp_dir;;
  match d !! p with
  | Some _ => set_temp_dir (delete p d);;; emit (EvUnlinkTemp p)
  | None => throw
  end.

(** [if (tempPath) await fs.unlink(tempPath)] *)
Definition unlink_if_set (tempPath : option string) : M unit :=
  match tempPath with
  | Some p => unlink_temp p
  | None => ret tt
  end.

(** [fs.unlink(tempPath)] with [tempPath] possibly [undefined]. *)
Definition unlink_path (tempPath : option string) : M unit :=
  match tempPath with
  | Some p => unlink_temp p
  | None => throw
  end.

(** [fs.readFile(tempPath)] *)
Definition readFile (tempPath : option string) : M (list Byte.byte) :=
  match tempPath with
  | Some p =>
      d <- gets temp_dir;;
      match d !! p with
      | Some t => ret (tdata t)
      | None => throw
      end
  | None => throw
  end.

(** What the system answers to one open-and-write.  [DiskOk]: the file is
    opened, with [r+] when it exists and with [w], which creates it, when
    it does not, and the write goes through.  [OpenFails]: neither open is
    granted (the path names a directory, lies in a directory that is not
    there, ...).  [WriteFails]: the file is opened as under [DiskOk] and the
    write is refused.  An [r+] that is refused on a file that exists,
    followed by a [w] that is granted and empties the file, is not among
    the outcomes. *)
Inductive disk_outcome := DiskOk | OpenFails | WriteFails.

(** Lines 132-141: open [r+], falling back to [w], then one write of the
    whole buffer at [offset]; the [finally] only closes the handle. *)
Definition write_chunk (disk : disk_outcome) (targetPath : string)
    (offset : number) (chunkData : list Byte.byte) : M unit :=
  match disk with
  | OpenFails => throw
  | _ =>
      d <- gets upload_dir;;
      let f := default empty_file (d !! targetPath) in
      set_upload_dir (<[targetPath := f]> d);;;
      emit (EvFileOpen targetPath);;;
      match disk with
      | DiskOk =>
          set_upload_dir
            (<[targetPath := pwrite f (write_position offset) chunkData]> d);;;
          emit (EvFileWrite targetPath (write_position offset) (length chunkData))
      | _ => throw
      end
  end.

(** ** JavaScript truthiness of request fields *)

Definition truthy_string (s : option string) : option string :=
  match s with
  | Some s => if decide (s = "") then None else Some s
  | None => None
  end.

Definition truthy_number (n : option Z) : option Z :=
  match n with
  | Some 0 => None
  | _ => n
  end.

(** ** [POST /api/upload/init] *)

Record init_req := {
  init_filename : option string;
  init_fileSize : option Z;
  init_uploadId : option string
}.

Inductive init_response :=
| InitOk (uploadId : string) (uploadedChunks : list N) (st : upload_status)
| InitBadRequest
| InitError.

(** [Math.ceil(fileSize / CHUNK_SIZE)] *)
Definition totalChunks_of (fileSize : Z) : Z :=
  Qround.Qceiling (QArith_base.Qmake fileSize (Z.to_pos CHUNK_SIZE)).

Definition pending_chunk (uid : string) (i : nat) : chunk_doc :=
  {| upload_id := uid; chunk_index := N.of_nat i;
     cstatus := PENDING; received_at := None |}.

(** The loop of lines 70-78. *)
Definition chunkDocs_of (uid : string) (totalChunks : Z) : list chunk_doc :=
  map (pending_chunk uid) (seq 0 (Z.to_nat totalChunks)).

Definition init_body (now : Z) (req : init_req) : M init_response :=
  match truthy_string (init_filename req),
        truthy_number (init_fileSize req),
        truthy_string (init_uploadId req) with
  | Some fname, Some fileSize, Some uploadId =>
      let totalChunks := totalChunks_of fileSize in
      existing <- gets (fun w => findOne (has_id uploadId) (uploads w));;
      match existing with
      | Some existing =>
          cs <- gets (fun w => find_all (of_upload uploadId) (chunks w));;
          let uploadedChunks := map chunk_index (List.filter is_received cs) in
          ret (InitOk uploadId uploadedChunks (status existing))
      | None =>
          insertOne_upload
            {| id := uploadId; filename := fname; total_size := fileSize;
               total_chunks := totalChunks; status := UPLOADING;
               final_hash := None; created_at := now; updated_at := now |};;;
          let chunkDocs := chunkDocs_of uploadId totalChunks in
          (if (0 <? length chunkDocs)%nat
           then insertMany_chunks chunkDocs else ret tt);;;
          ret (InitOk uploadId [] UPLOADING)
      end
  | _, _, _ => ret InitBadRequest
  end.

(** A handler always answers: an exception becomes the 500 response. *)
Definition respond {A} (m : M A) (on_error : M A) (fallback : A) (w : world)
    : A * world :=
  match try_catch m on_error w with
  | (Ok r, w') => (r, w')
  | (Thrown, w') => (fallback, w')
  end.

Definition init (now : Z) (req : init_req) (w : world) : init_response * world :=
  respond (init_body now req) (ret InitError) InitError w.

(** ** [finalizeUpload], one store or file operation per step *)

Inductive fin_pc :=
| FinFind
| FinSetProcessing
| FinHash
| FinPeek (h : digest)
| FinSetCompleted (h : digest)
| FinSetFailed
| FinDone.

Definition is_done (pc : fin_pc) : bool :=
  match pc with
  | FinDone => true
  | _ => false
  end.

(** One [await] of [finalizeUpload(uploadId, filePath, filename)], where
    [filePath] is what its one call site passes, the target path of
    [uploadId].  [peekZipContents] only feeds the console, and its failure
    is swallowed, so its step leaves the world alone.  [calculateFileHash]
    rejects when the file is missing. *)
Definition fin_step (now : Z) (uid : string) (pc : fin_pc) : M fin_pc :=
  match pc with
  | FinFind =>
      uploadDoc <- gets (fun w => findOne (has_id uid) (uploads w));;
      match uploadDoc with
      | Some d => if decide (status d = UPLOADING)
                  then ret FinSetProcessing else ret FinDone
      | None => ret FinDone
      end
  | FinSetProcessing =>
      update_upload uid (set_status PROCESSING now) PROCESSING None;;;
      ret FinHash
  | FinHash =>
      f <- gets (fun w => upload_dir w !! target_path uid);;
      match f with
      | Some f => ret (FinPeek (SHA256 f))
      | None => ret FinSetFailed
      end
  | FinPeek h => ret (FinSetCompleted h)
  | FinSetCompleted h =>
      update_upload uid (set_completed h now) COMPLETED (Some h);;;
      ret FinDone
  | FinSetFailed =>
      update_upload uid (set_status FAILED now) FAILED None;;;
      ret FinDone
  | FinDone => ret FinDone
  end.

Fixpoint fin_run (fuel : nat) (now : Z) (uid : string) (pc : fin_pc) : M fin_pc :=
  match fuel with
  | O => ret pc
  | S fuel' =>
      match pc with
      | FinDone => ret FinDone
      | _ => pc' <- fin_step now uid pc;; fin_run fuel' now uid pc'
      end
  end.

(** One call run to its end without interleaving: five awaits at most. *)
Definition finalizeUpload (now : Z) (uid : string) : M fin_pc :=
  fin_run 5 now uid FinFind.

(** ** [POST /api/upload/chunk] *)

(** The multipart request.  [chunk_file] is [req.file?.path];
    [chunk_chunkIndex] is [None] when the field is [undefined] and
    otherwise the number [parseInt] makes of its text, whatever that is;
    [chunk_totalChunks] is the raw text field, which the handler parses and
    never uses. *)
Record chunk_req := {
  chunk_file : option string;
  chunk_uploadId : option string;
  chunk_chunkIndex : option number;
  chunk_totalChunks : option string
}.

(** [chunkIdx * CHUNK_SIZE] *)
Definition offset_of (chunkIdx : number) : number :=
  match chunkIdx with
  | Int z => Int (z * CHUNK_SIZE)
  | other => other
  end.

Inductive chunk_response :=
| ChunkBadRequest
| ChunkNotFound
| ChunkError
| ChunkAlreadyUploaded
| ChunkStored (isComplete : bool) (receivedChunks totalChunks : nat).

Definition already_received (c : option chunk_doc) : bool :=
  match c with
  | Some c => is_received c
  | None => false
  end.

Definition mark_received (now : Z) (uid : string) (idx : number) : M unit :=
  cs <- gets chunks;;
  set_chunks (updateOne (chunk_matches uid idx) (set_received now) cs);;;
  emit (EvUpdateChunk uid idx (existsb (chunk_matches uid idx) cs)).

Definition chunk_body (now : Z) (disk : disk_outcome) (req : chunk_req)
    : M chunk_response :=
  let tempPath := chunk_file req in
  match truthy_string (chunk_uploadId req),
        chunk_chunkIndex req,
        truthy_string (chunk_totalChunks req) with
  | Some uploadId, Some chunkIdx, Some _ =>
      uploadDoc <- gets (fun w => findOne (has_id uploadId) (uploads w));;
      match uploadDoc with
      | None => unlink_if_set tempPath;;; ret ChunkNotFound
      | Some uploadDoc =>
          existingChunk <-
            gets (fun w => findOne (chunk_matches uploadId chunkIdx) (chunks w));;
          if already_received existingChunk
          then unlink_if_set tempPath;;; ret ChunkAlreadyUploaded
          else
            let targetPath := target_path uploadId in
            let offset := offset_of chunkIdx in
            chunkData <- readFile tempPath;;
            write_chunk disk targetPath offset chunkData;;;
            unlink_path tempPath;;;
            mark_received now uploadId chunkIdx;;;
            allChunks <- gets (fun w => find_all (of_upload uploadId) (chunks w));;
            let totalCount := length allChunks in
            let receivedCount := length (List.filter is_received allChunks) in
            let isComplete := bool_decide (receivedCount = totalCount) in
            (if isComplete
             then finalizeUpload now uploadId;;; ret tt else ret tt);;;
            ret (ChunkStored isComplete receivedCount totalCount)
      end
  | _, _, _ => unlink_if_set tempPath;;; ret ChunkBadRequest
  end.

(** The [catch] of lines 169-177: best-effort unlink, then 500. *)
Definition chunk_catch (tempPath : option string) : M chunk_response :=
  try_catch (unlink_if_set tempPath) (ret tt);;; ret ChunkError.

Definition receive_chunk (now : Z) (disk : disk_outcome) (req : chunk_req)
    (w : world) : chunk_response * world :=
  respond (chunk_body now disk req) (chunk_catch (chunk_file req)) ChunkError w.

(** ** [cleanupOldUploads] *)

Definition RETENTION_MS : Z := 24 * 60 * 60 * 1000.
Definition SCRATCH_MS : Z := 60 * 60 * 1000.

(** The query [{status: {$in: ['UPLOADING','FAILED']}, created_at: {$lt: cutoffTime}}]. *)
Definition expired (cutoffTime : Z) (u : upload_doc) : bool :=
  (bool_decide (status u = UPLOADING) || bool_decide (status u = FAILED))
  && (created_at u <? cutoffTime).

(** Lines 298-301: [try { await fs.unlink(filePath) } catch {}] *)
Definition unlink_target (uid : string) : M unit :=
  let filePath := target_path uid in
  d <- gets upload_dir;;
  match d !! filePath with
  | Some _ => set_upload_dir (delete filePath d);;; emit (EvUnlinkTarget filePath)
  | None => ret tt
  end.

(** The session's target file is at the path [q]. *)
Definition targets (q : string) (u : upload_doc) : bool :=
  bool_decide (target_path (id u) = q).

Fixpoint unlink_targets (docs : list upload_doc) : M unit :=
  match docs with
  | [] => ret tt
  | d :: docs' => unlink_target (id d);;; unlink_targets docs'
  end.

Fixpoint sweep_temp (now : Z) (entries : list (string * temp_file)) : M unit :=
  match entries with
  | [] => ret tt
  | (p, t) :: entries' =>
      (if decide (now - mtime t > SCRATCH_MS) then unlink_temp p else ret tt);;;
      sweep_temp now entries'
  end.

Definition cleanup_body (now : Z) : M unit :=
  let cutoffTime := now - RETENTION_MS in
  oldUploads <- gets (fun w => find_all (expired cutoffTime) (uploads w));;
  unlink_targets oldUploads;;;
  us <- gets uploads;;
  set_uploads (deleteMany (expired cutoffTime) us);;;
  emit (EvDeleteUploads (map id (find_all (expired cutoffTime) us)));;;
  tempFiles <- gets (fun w => map_to_list (temp_dir w));;
  sweep_temp now tempFiles.

Definition cleanupOldUploads (now : Z) (w : world) : world :=
  snd (try_catch (cleanup_body now) (ret tt) w).

(** ** Workers racing through [finalizeUpload]

    Node runs one handler at a time and switches between them at each
    [await]; MongoDB applies each single-document operation atomically.
    A schedule names, step by step, the worker that runs its next await. *)

Record config := { workers : list fin_pc; shared : world }.

Definition sched_step (now : Z) (uid : string) (c : config) (i : nat) : config :=
  match workers c !! i with
  | Some pc =>
      match fin_step now uid pc (shared c) with
      | (Ok pc', w') => {| workers := <[i := pc']> (workers c); shared := w' |}
      | (Thrown, w') => {| workers := <[i := FinDone]> (workers c); shared := w' |}
      end
  | None => c
  end.

Definition run_schedule (now : Z) (uid : string) (sched : list nat) (c : config)
    : config :=
  foldl (sched_step now uid) c sched.

Definition all_done (c : config) : bool :=
  forallb is_done (workers c).

(** How often a [final_hash] was written for [uid], and the statuses the
    session was given, as recorded in a trace. *)
Definition writes_hash (uid : string) (e : event) : bool :=
  match e with
  | EvUpdateUpload u _ (Some _) => bool_decide (u = uid)
  | _ => false
  end.

Definition sets_status (uid : string) (st : upload_status) (e : event) : bool :=
  match e with
  | EvUpdateUpload u st' _ => bool_decide (u = uid) && bool_decide (st' = st)
  | _ => false
  end.

Definition hash_writes (uid : string) (t : list event) : nat :=
  length (List.filter (writes_hash uid) t).

Definition times_set (uid : string) (st : upload_status) (t : list event) : nat :=
  length (List.filter (sets_status uid st) t).

(** ** Reading traces and worlds *)

Definition is_upload_update (e : event) : bool :=
  match e with
  | EvUpdateUpload _ _ _ => true
  | _ => false
  end.

Definition is_mark (e : event) : bool :=
  match e with
  | EvUpdateChunk _ _ _ => true
  | _ => false
  end.

(** What a step of finalization leaves alone. *)
Definition fin_frame (w w' : world) : Prop :=
  chunks w' = chunks w /\ upload_dir w' = upload_dir w /\
  temp_dir w' = temp_dir w /\
  exists new, trace w' = trace w ++ new /\
              Forall (fun e => is_upload_update e = true) new.

(** The number of awaits left before a call of [finalizeUpload] returns. *)
Definition awaits_left (pc : fin_pc) : nat :=
  match pc with
  | FinFind => 5
  | FinSetProcessing => 4
  | FinHash => 3
  | FinPeek _ => 2
  | FinSetCompleted _ => 1
  | FinSetFailed => 1
  | FinDone => 0
  end.

(** The world after the write, the unlink and the [updateOne] of a call that
    got as far as storing its payload. *)
Definition stored_world (now : Z) (uid : string) (idx : number) (p : string)
    (payload : list Byte.byte) (w : world) : world :=
  {| uploads := uploads w;
     chunks := updateOne (chunk_matches uid idx) (set_received now) (chunks w);
     upload_dir :=
       <[target_path uid :=
           pwrite (default empty_file (upload_dir w !! target_path uid))
                  (write_position (offset_of idx)) payload]> (upload_dir w);
     temp_dir := delete p (temp_dir w);
     trace := trace w ++
       [EvFileOpen (target_path uid);
        EvFileWrite (target_path uid) (write_position (offset_of idx))
                    (length payload);
        EvUnlinkTemp p;
        EvUpdateChunk uid idx (existsb (chunk_matches uid idx) (chunks w))] |}.

Definition receivedCount (uid : string) (w : world) : nat :=
  length (List.filter is_received (find_all (of_upload uid) (chunks w))).

Definition totalCount (uid : string) (w : world) : nat :=
  length (find_all (of_upload uid) (chunks w)).

(** A call either stops short of the store path, leaving both collections
    alone and marking nothing, or it takes the store path of
    [receive_chunk_stored]. *)
Definition stops_short (r : chunk_response * world) (w : world) : Prop :=
  chunks (snd r) = chunks w /\ uploads (snd r) = uploads w /\
  (forall b rc tc, fst r <> ChunkStored b rc tc) /\
  exists new, trace (snd r) = trace w ++ new /\
              Forall (fun e => is_mark e = false) new.

Definition takes_store_path (disk : disk_outcome) (req : chunk_req) (w : world)
    (uid p : string) (idx : number) (t : temp_file) : Prop :=
  disk = DiskOk /\
  truthy_string (chunk_uploadId req) = Some uid /\
  chunk_chunkIndex req = Some idx /\
  (exists tc, truthy_string (chunk_totalChunks req) = Some tc) /\
  (exists u, findOne (has_id uid) (uploads w) = Some u) /\
  already_received (findOne (chunk_matches uid idx) (chunks w)) = false /\
  chunk_file req = Some p /\
  temp_dir w !! p = Some t.

Definition with_totalChunks (req : chunk_req) (tc : option string) : chunk_req :=
  {| chunk_file := chunk_file req; chunk_uploadId := chunk_uploadId req;
     chunk_chunkIndex := chunk_chunkIndex req; chunk_totalChunks := tc |}.

(** The guard of [finalizeUpload] would stop a call made in this world. *)
Definition guarded (uid : string) (w : world) : Prop :=
  forall d, findOne (has_id uid) (uploads w) = Some d -> status d <> UPLOADING.

(** Past its first [updateOne], a call has taken the session out of
    [UPLOADING]. *)
Definition sealed_at (uid : string) (pc : fin_pc) (w : world) : Prop :=
  match pc with
  | FinFind | FinSetProcessing => True
  | _ => guarded uid w
  end.

(** ** Scenarios *)

Definition empty_world : world :=
  {| uploads := []; chunks := []; upload_dir := ∅; temp_dir := ∅; trace := [] |}.

(** [upload.single('chunk')]: multer spools the part into [TEMP_DIR] before
    the handler runs. *)
Definition spool (p : string) (payload : list Byte.byte) (now : Z) (w : world)
    : world :=
  {| uploads := uploads w; chunks := chunks w; upload_dir := upload_dir w;
     temp_dir := <[p := {| tdata := payload; mtime := now |}]> (temp_dir w);
     trace := trace w |}.

Definition init_of (fname : string) (fileSize : Z) (uid : string) : init_req :=
  {| init_filename := Some fname; init_fileSize := Some fileSize;
     init_uploadId := Some uid |}.

Definition chunk_of (p uid : string) (idx : number) (tc : string) : chunk_req :=
  {| chunk_file := Some p; chunk_uploadId := Some uid;
     chunk_chunkIndex := Some idx; chunk_totalChunks := Some tc |}.

Definition HOUR : Z := 60 * 60 * 1000.

(** A ten-byte upload: one chunk, expected to be ten bytes long. *)
Definition ten_bytes : world :=
  snd (init 100 (init_of "a.zip" 10 "u1") empty_world).

(** ... and the call that sends one byte for it. *)
Definition one_byte_sent : world := spool "t1" [Byte.x61] 150 ten_bytes.
Definition one_byte_call : chunk_response * world :=
  receive_chunk 200 DiskOk (chunk_of "t1" "u1" (Int 0) "1") one_byte_sent.

(** The session is now [COMPLETED]; a further call names index 1. *)
Definition late_sent : world := spool "t2" [Byte.x62] 250 (snd one_byte_call).
Definition late_call : chunk_response * world :=
  receive_chunk 300 DiskOk (chunk_of "t2" "u1" (Int 1) "1") late_sent.

(** The same call as [one_byte_call], repeated once the chunk is stored. *)
Definition repeat_sent : world := spool "t3" [Byte.x61] 250 (snd one_byte_call).

(** Three chunks declared, none sent yet. *)
Definition three_chunks : world :=
  snd (init 100 (init_of "a.zip" (2 * CHUNK_SIZE + 1) "u1") empty_world).

(** S6: [u3] completed and [u2] abandoned with two chunks received, both
    created at time 0; the janitor runs 25 hours later. *)
Definition abandoned : world :=
  let w1 := snd (init 0 (init_of "c.zip" 1 "u3") empty_world) in
  let w2 := snd (receive_chunk 5 DiskOk (chunk_of "t0" "u3" (Int 0) "1")
                   (spool "t0" [Byte.x63] 4 w1)) in
  let w3 := snd (init 0 (init_of "b.zip" (2 * CHUNK_SIZE + 1) "u2") w2) in
  let w4 := snd (receive_chunk 10 DiskOk (chunk_of "t1" "u2" (Int 0) "3")
                   (spool "t1" [Byte.x61] 9 w3)) in
  snd (receive_chunk 20 DiskOk (chunk_of "t2" "u2" (Int 1) "3")
         (spool "t2" [Byte.x62] 19 w4)).

Definition swept : world := cleanupOldUploads (25 * HOUR) abandoned.

(** S3: two requests carried the only chunk of [u1]; both have written it and
    marked it, and both are about to call [finalizeUpload]. *)
Definition both_marked : world :=
  stored_world 210 "u1" (Int 0) "t2" [Byte.x61]
    (stored_world 200 "u1" (Int 0) "t1" [Byte.x61]
       (spool "t2" [Byte.x61] 160 one_byte_sent)).

Definition race_start : config :=
  {| workers := [FinFind; FinFind]; shared := both_marked |}.

(** Both workers pass the guard before either has written [PROCESSING]. *)
Definition race_schedule : list nat := [0; 1; 0; 0; 0; 0; 1; 1; 1; 1]%nat.

Definition raced : config := run_schedule 300 "u1" race_schedule race_start.

Definition one_byte_file : file :=
  {| data := {[ 0 := Byte.x61 ]}; size := 1 |}.

Definition u1_completed : upload_doc :=
  {| id := "u1"; filename := "a.zip"; total_size := 10; total_chunks := 1;
     status := COMPLETED; final_hash := Some (SHA256 one_byte_file);
     created_at := 100; updated_at := 200 |}.

Definition u1_uploading (fileSize totalChunks : Z) : upload_doc :=
  {| id := "u1"; filename := "a.zip"; total_size := fileSize;
     total_chunks := totalChunks; status := UPLOADING; final_hash := None;
     created_at := 100; updated_at := 100 |}.

Definition u2_abandoned : upload_doc :=
  {| id := "u2"; filename := "b.zip"; total_size := 2 * CHUNK_SIZE + 1;
     total_chunks := 3; status := UPLOADING; final_hash := None;
     created_at := 0; updated_at := 0 |}.

Definition stray_sent : world := spool "t9" [Byte.x7a] 150 three_chunks.

(** ** Reading a target file *)


(** A file holds no byte outside [0, size). *)
Definition wf_file (f : file) : Prop :=
  0 <= size f /\ forall k, is_Some (data f !! k) -> 0 <= k < size f.

(** ** The client ([frontend/src/App.jsx]) *)

Module Client.

(** Line 4 of [App.jsx]. *)
Definition CHUNK_SIZE : Z := 5 * 1024 * 1024.
Definition MAX_CONCURRENT : nat := 3.
Definition MAX_RETRIES : nat := 3.

(** [Math.ceil(selectedFile.size / CHUNK_SIZE)] *)
Definition totalChunks (fileSize : Z) : Z :=
  Qround.Qceiling (QArith_base.Qmake fileSize (Z.to_pos CHUNK_SIZE)).

(** [file.slice(start, end)] for [0 <= start]. *)
Definition slice (content : list Byte.byte) (start stop : Z) : list Byte.byte :=
  take (Z.to_nat (stop - start)) (drop (Z.to_nat start) content).

(** The blob [uploadChunk] sends for [chunkIndex] (lines 167-169). *)
Definition chunk_blob (content : list Byte.byte) (chunkIndex : N) : list Byte.byte :=
  let start := Z.of_N chunkIndex * CHUNK_SIZE in
  let stop := Z.min (start + CHUNK_SIZE) (Z.of_nat (length content)) in
  slice content start stop.



(** [startUpload]'s estimate of the bytes the server already has. *)
Definition alreadyUploaded (uploadedChunks : list N) : Z :=
  Z.of_nat (length uploadedChunks) * CHUNK_SIZE.

(** The loop of [processQueue]: while fewer than [MAX_CONCURRENT] uploads
    are active and the queue is not empty, shift an index off the queue and
    start its upload.  Returns the active count, the queue that is left and
    the indices started, in order. *)
Fixpoint launch (activeUploads : Z) (queue : list N) : Z * list N * list N :=
  match queue with
  | [] => (activeUploads, [], [])
  | chunkIndex :: rest =>
      if activeUploads <? Z.of_nat MAX_CONCURRENT
      then let '(a, q, started) := launch (activeUploads + 1) rest in
           (a, q, chunkIndex :: started)
      else (activeUploads, queue, [])
  end.

Record queue_state := {
  activeUploads : Z;
  queue : list N;
  started : list N;
  completionChecks : nat
}.

(** [processQueue]: the loop, then [checkCompletion] when nothing is active
    and nothing is queued. *)
Definition processQueue (s : queue_state) : queue_state :=
  let '(a, q, l) := launch (activeUploads s) (queue s) in
  {| activeUploads := a; queue := q; started := started s ++ l;
     completionChecks :=
       if decide (a = 0 /\ q = []) then S (completionChecks s)
       else completionChecks s |}.

(** An upload settles, in success or after its last retry:
    [activeUploads--; processQueue(id)]. *)
Definition settle (s : queue_state) : queue_state :=
  processQueue {| activeUploads := activeUploads s - 1; queue := queue s;
                  started := started s;
                  completionChecks := completionChecks s |}.

(** [startUpload] hands the queue over with nothing active, then [n] uploads
    settle one after the other. *)
Definition run_queue (pending : list N) (n : nat) : queue_state :=
  Nat.iter n settle
    (processQueue {| activeUploads := 0; queue := pending; started := [];
                     completionChecks := 0 |}).

(** How one [uploadChunk] ends. *)
Inductive chunk_end :=
| Success (retries : nat)
| Failure (retries : nat)
| InFlight.

(** [uploadChunk(id, chunkIndex, retryCount)] against the outcomes of its
    successive attempts ([true]: the request went through with an ok
    response): the delays it waits, in milliseconds, and how it ends. *)
Fixpoint uploadChunk (attempts : list bool) (retryCount : nat) : list Z * chunk_end :=
  match attempts with
  | [] => ([], InFlight)
  | ok :: later =>
      if ok then ([], Success retryCount)
      else if (retryCount <? MAX_RETRIES)%nat
      then let '(delays, e) := uploadChunk later (S retryCount) in
           (2 ^ Z.of_nat retryCount * 1000 :: delays, e)
      else ([], Failure retryCount)
  end.

End Client.


(** The store after a call of [finalizeUpload] that found the session
    [UPLOADING] and the file [f] in place. *)
Definition completed_world (now : Z) (uid : string) (f : file) (w : world) : world :=
  {| uploads :=
       updateOne (has_id uid) (set_completed (SHA256 f) now)
         (updateOne (has_id uid) (set_status PROCESSING now) (uploads w));
     chunks := chunks w;
     upload_dir := upload_dir w;
     temp_dir := temp_dir w;
     trace := trace w ++
       [EvUpdateUpload uid PROCESSING None;
        EvUpdateUpload uid COMPLETED (Some (SHA256 f))] |}.

(** ... and of one that found the file missing. *)
Definition failed_world (now : Z) (uid : string) (w : world) : world :=
  {| uploads :=
       updateOne (has_id uid) (set_status FAILED now)
         (updateOne (has_id uid) (set_status PROCESSING now) (uploads w));
     chunks := chunks w;
     upload_dir := upload_dir w;
     temp_dir := temp_dir w;
     trace := trace w ++
       [EvUpdateUpload uid PROCESSING None;
        EvUpdateUpload uid FAILED None] |}.

(** ** A whole upload, call by call *)




(** One call with a payload of its own, on a working disk. *)
Definition send_chunk (now : Z) (p uid : string) (idx : number) (tc : string)
    (payload : list Byte.byte) (w : world) : chunk_response * world :=
  receive_chunk now DiskOk (chunk_of p uid idx tc) (spool p payload now w).

(** Whether such a call gets as far as the write: the fields are there, the
    session exists and the chunk is not marked [RECEIVED]. *)
Definition reaches_write (uid tc : string) (idx : number) (w : world) : bool :=
  match truthy_string (Some uid), truthy_string (Some tc),
        findOne (has_id uid) (uploads w) with
  | Some _, Some _, Some _ =>
      negb (already_received (findOne (chunk_matches uid idx) (chunks w)))
  | _, _, _ => false
  end.


(** ** What a session is created with *)

(** The fields of a session that no [$set] of the server names. *)
Definition static_fields (u : upload_doc) : string * string * Z * Z * Z :=
  (id u, filename u, total_size u, total_chunks u, created_at u).

(** The key of the unique index on [chunks]. *)
Definition chunk_key (c : chunk_doc) : string * N := (upload_id c, chunk_index c).

(** A hash is recorded on [COMPLETED] sessions only. *)
Definition hash_means_completed (w : world) : Prop :=
  forall u, u ∈ uploads w -> final_hash u <> None -> status u = COMPLETED.

(** ** [GET /api/upload/:uploadId/status] *)

Inductive status_response :=
| StatusOk (upload : upload_doc) (chunk_docs : list chunk_doc)
| StatusNotFound.

Definition get_status (uploadId : string) (w : world) : status_response :=
  match findOne (has_id uploadId) (uploads w) with
  | Some uploadDoc => StatusOk uploadDoc (find_all (of_upload uploadId) (chunks w))
  | None => StatusNotFound
  end.

(** A [COMPLETED] session carries a hash and has every chunk record
    [RECEIVED]. *)
Definition completed_sound (w : world) : Prop :=
  forall u, u ∈ uploads w -> status u = COMPLETED ->
    final_hash u <> None /\
    forall c, c ∈ chunks w -> upload_id c = id u -> cstatus c = RECEIVED.

(** ** Inputs for the further scenarios *)

Definition abc : list Byte.byte := [Byte.x61; Byte.x62; Byte.x63].


(** A part spooled for an upload id nobody has initialised. *)
Definition ghost_sent : world := spool "t1" [Byte.x61] 150 empty_world.

(** The session [init] creates for a size of -5: no chunk records. *)
Definition negative_sent : world :=
  spool "t1" [Byte.x61] 150
    (snd (init 100 (init_of "a.zip" (-5) "u1") empty_world)).

Definition u1_negative : upload_doc :=
  {| id := "u1"; filename := "a.zip"; total_size := -5; total_chunks := 0;
     status := UPLOADING; final_hash := None; created_at := 100;
     updated_at := 100 |}.

(** Chunk 0 of the three-chunk upload is stored; a further call names index
    2147483648, whose offset is past every safe integer. *)
Definition first_stored : world :=
  snd (send_chunk 200 "t1" "u1" (Int 0) "3" [Byte.x61] three_chunks).

Definition huge_call : chunk_response * world :=
  send_chunk 300 "t9" "u1" (Int 2147483648) "3" [Byte.x7a] first_stored.

Definition u3_completed : upload_doc :=
  {| id := "u3"; filename := "c.zip"; total_size := 1; total_chunks := 1;
     status := COMPLETED;
     final_hash := Some (SHA256 {| data := {[ 0 := Byte.x63 ]}; size := 1 |});
     created_at := 0; updated_at := 5 |}.

(** The world of S6 with one more file in the upload directory, the target
    of no session. *)
Definition littered : world :=
  {| uploads := uploads abandoned; chunks := chunks abandoned;
     upload_dir := <["uploads/stray" := one_byte_file]> (upload_dir abandoned);
     temp_dir := temp_dir abandoned; trace := trace abandoned |}.

(** Two sessions whose ids join to one path: [a], completed, and [./a],
    abandoned. *)
Definition shared_path : world :=
  let w1 := snd (init 0 (init_of "c.zip" 1 "a") empty_world) in
  let w2 := snd (send_chunk 5 "t0" "a" (Int 0) "1" [Byte.x63] w1) in
  snd (init 0 (init_of "d.zip" 1 "./a") w2).


Definition u1_completed_at_300 : upload_doc :=
  {| id := "u1"; filename := "a.zip"; total_size := 10; total_chunks := 1;
     status := COMPLETED; final_hash := Some (SHA256 one_byte_file);
     created_at := 100; updated_at := 300 |}.

(** * Properties *)

(** ** Running the monad *)

Ltac run :=
  unfold respond, try_catch, bind, gets, modify, ret, throw, emit,
    set_uploads, set_chunks, set_upload_dir, set_temp_dir in *;
  simpl in *.

Ltac short_trace :=
  first
    [ exists []; split; [by rewrite app_nil_r | by constructor]
    | eexists; split; [reflexivity | by repeat constructor]
    | eexists; split; [by rewrite <- app_assoc | by repeat constructor] ].

Ltac short_path :=
  left; unfold stops_short, chunk_catch, unlink_if_set, unlink_temp; run;
  repeat (case_match; simplify_eq; run);
  (split; [done|]); (split; [done|]); (split; [done|]); short_trace.

(** ** Lists as collections *)

Lemma find_none_existsb {A} (q : A -> bool) (l : list A) :
  List.find q l = None -> existsb q l = false.
Proof.
  induction l as [|x l IH]; simpl; [done|].
  destruct (q x); [done|]. exact IH.
Qed.

Lemma find_some_existsb {A} (q : A -> bool) (l : list A) (x : A) :
  List.find q l = Some x -> existsb q l = true.
Proof.
  induction l as [|y l IH]; simpl; [done|].
  destruct (q y); [done|]. exact IH.
Qed.

Lemma updateOne_no_match {A} (q : A -> bool) (upd : A -> A) (l : list A) :
  List.find q l = None -> updateOne q upd l = l.
Proof.
  induction l as [|x l IH]; simpl; [done|].
  destruct (q x); [done|]. intros H. by rewrite IH.
Qed.

Lemma find_updateOne {A} (q : A -> bool) (upd : A -> A) (l : list A) (x : A) :
  (forall y, q y = true -> q (upd y) = true) ->
  List.find q l = Some x ->
  List.find q (updateOne q upd l) = Some (upd x).
Proof.
  intros Hq. induction l as [|y l IH]; simpl; [done|].
  destruct (q y) eqn:E; simpl.
  - intros [= ->]. by rewrite (Hq _ E).
  - rewrite E. exact IH.
Qed.

(** ** [Math.ceil(fileSize / CHUNK_SIZE)] is the exact integer ceiling *)

Lemma totalChunks_of_div (n : Z) : totalChunks_of n = - ((- n) / CHUNK_SIZE).
Proof. reflexivity. Qed.

Lemma totalChunks_of_ceiling (n : Z) :
  n <= totalChunks_of n * CHUNK_SIZE < n + CHUNK_SIZE.
Proof.
  rewrite totalChunks_of_div.
  assert (Hc : 0 < CHUNK_SIZE) by reflexivity.
  pose proof (Z.div_mod (- n) CHUNK_SIZE ltac:(lia)) as Hdm.
  pose proof (Z.mod_pos_bound (- n) CHUNK_SIZE Hc) as Hb.
  lia.
Qed.

Lemma totalChunks_of_least (n k : Z) :
  n <= k * CHUNK_SIZE -> totalChunks_of n <= k.
Proof.
  pose proof (totalChunks_of_ceiling n) as H.
  assert (Hc : 0 < CHUNK_SIZE) by reflexivity.
  intros Hk. nia.
Qed.

Lemma totalChunks_of_pos (n : Z) : 0 < n -> 0 < totalChunks_of n.
Proof.
  pose proof (totalChunks_of_ceiling n) as H.
  assert (Hc : 0 < CHUNK_SIZE) by reflexivity.
  intros Hn. nia.
Qed.

(** A successful [insertMany] appends the documents, in order, and touches
    nothing else but the trace. *)
Lemma insertMany_chunks_ok (docs : list chunk_doc) (w w' : world) :
  insertMany_chunks docs w = (Ok tt, w') ->
  chunks w' = chunks w ++ docs /\ uploads w' = uploads w /\
  upload_dir w' = upload_dir w /\ temp_dir w' = temp_dir w.
Proof.
  revert w. induction docs as [|d docs IH]; intros w; simpl.
  - run. intros [= <-]. by rewrite app_nil_r.
  - run. destruct (existsb _ (chunks w)); [done|].
    intros H. apply IH in H. simpl in H.
    destruct H as (-> & -> & -> & ->). by rewrite <- app_assoc.
Qed.

(** With no record of the upload in the way, [insertMany] succeeds. *)
Lemma insertMany_chunks_fresh (uid : string) (k n : nat) (w : world) :
  (forall c, c ∈ chunks w -> upload_id c = uid -> (N.to_nat (chunk_index c) < k)%nat) ->
  fst (insertMany_chunks (map (pending_chunk uid) (seq k n)) w) = Ok tt.
Proof.
  revert k w. induction n as [|n IH]; intros k w Hw; simpl; [done|].
  run.
  destruct (existsb _ (chunks w)) eqn:E.
  - apply existsb_exists in E as (c & Hin & Hc).
    unfold chunk_matches in Hc. apply andb_prop in Hc as [H1 H2].
    apply bool_decide_eq_true in H1, H2.
    apply list_elem_of_In in Hin. specialize (Hw c Hin H1). lia.
  - apply IH. simpl. intros c Hc Hid.
    apply elem_of_app in Hc as [Hc|Hc].
    + specialize (Hw c Hc Hid). lia.
    + apply list_elem_of_singleton in Hc. subst c. simpl. lia.
Qed.

(** C8. A session that [init] creates for a declared size above zero stores
    [total_chunks] equal to the exact ceiling of [total_size / CHUNK_SIZE]
    (the least [k] with [total_size <= k * CHUNK_SIZE], for
    [CHUNK_SIZE = 5 * 1024 * 1024]), and the call adds exactly the
    [total_chunks] chunk records of indices [0 .. total_chunks - 1], all
    [PENDING]; the creation succeeds whenever the store holds no chunk
    record of that id. *)
Theorem init_stores_ceiling_chunks (now : Z) (req : init_req) (w : world)
    (fname uploadId : string) (fileSize : Z) :
  truthy_string (init_filename req) = Some fname ->
  init_fileSize req = Some fileSize ->
  0 < fileSize ->
  truthy_string (init_uploadId req) = Some uploadId ->
  findOne (has_id uploadId) (uploads w) = None ->
  CHUNK_SIZE = 5242880 /\
  (find_all (of_upload uploadId) (chunks w) = [] ->
   fst (init now req w) = InitOk uploadId [] UPLOADING) /\
  (fst (init now req w) = InitOk uploadId [] UPLOADING ->
   exists tc : Z,
     uploads (snd (init now req w)) =
       uploads w ++ [{| id := uploadId; filename := fname;
                        total_size := fileSize; total_chunks := tc;
                        status := UPLOADING; final_hash := None;
                        created_at := now; updated_at := now |}] /\
     fileSize <= tc * CHUNK_SIZE < fileSize + CHUNK_SIZE /\
     (forall k, fileSize <= k * CHUNK_SIZE -> tc <= k) /\
     chunks (snd (init now req w)) =
       chunks w ++ map (pending_chunk uploadId) (seq 0 (Z.to_nat tc)) /\
     map chunk_index (map (pending_chunk uploadId) (seq 0 (Z.to_nat tc))) =
       map N.of_nat (seq 0 (Z.to_nat tc)) /\
     Z.of_nat (length (map (pending_chunk uploadId) (seq 0 (Z.to_nat tc)))) = tc).
Proof.
  intros Hf Hs Hpos Hu Hnone.
  assert (Hts : truthy_number (init_fileSize req) = Some fileSize).
  { rewrite Hs. destruct fileSize; done. }
  pose proof (totalChunks_of_pos fileSize Hpos) as Htc.
  assert (Hlen : (0 <? length (chunkDocs_of uploadId (totalChunks_of fileSize)))%nat = true).
  { apply Nat.ltb_lt. unfold chunkDocs_of. rewrite length_map, length_seq. lia. }
  unfold findOne in Hnone.
  pose proof (find_none_existsb _ _ Hnone) as Hex.
  split; [reflexivity|].
  unfold init, init_body. rewrite Hf, Hts, Hu. run.
  unfold findOne. rewrite Hnone. unfold insertOne_upload. run.
  rewrite Hex. simpl. rewrite Hlen.
  set (w1 := {| uploads := _; chunks := chunks w |}).
  split.
  - intros Hfresh.
    pose proof (insertMany_chunks_fresh uploadId 0 (Z.to_nat (totalChunks_of fileSize)) w1) as Hok.
    unfold chunkDocs_of.
    destruct (insertMany_chunks _ w1) as [[[]|] w2]; simpl in *; [done|].
    exfalso. assert (Ok tt = @Thrown unit) as Habs; [|done].
    symmetry. apply Hok. intros c Hc Hid.
    assert (c ∈ find_all (of_upload uploadId) (chunks w)) as Hin.
    { apply list_elem_of_In, filter_In. split; [by apply list_elem_of_In|].
      by apply bool_decide_eq_true. }
    rewrite Hfresh in Hin. by apply elem_of_nil in Hin.
  - destruct (insertMany_chunks _ w1) as [[[]|] w2] eqn:E; simpl; [|done].
    intros _. apply insertMany_chunks_ok in E as (Hc & Hup & _).
    exists (totalChunks_of fileSize). rewrite Hc, Hup. simpl.
    split; [done|]. split; [apply totalChunks_of_ceiling|].
    split; [apply totalChunks_of_least|]. split; [done|].
    split.
    + rewrite map_map. done.
    + rewrite length_map, length_seq. lia.
Qed.

(** C6. [init] on an id that already has a session returns that id with the
    session's current status and, as [uploadedChunks], exactly the indices
    of the chunk records of that id whose status is [RECEIVED]; the world
    (sessions, chunk records, files) is left as it was, so repeating the
    call repeats the answer. *)
Theorem init_existing_idempotent (now : Z) (req : init_req) (w : world)
    (fname uploadId : string) (fileSize : Z) (existing : upload_doc) :
  truthy_string (init_filename req) = Some fname ->
  truthy_number (init_fileSize req) = Some fileSize ->
  truthy_string (init_uploadId req) = Some uploadId ->
  findOne (has_id uploadId) (uploads w) = Some existing ->
  exists uploadedChunks : list N,
    init now req w = (InitOk uploadId uploadedChunks (status existing), w) /\
    id existing = uploadId /\
    (forall i : N,
        i ∈ uploadedChunks <->
        exists c, c ∈ chunks w /\ upload_id c = uploadId /\
                  chunk_index c = i /\ cstatus c = RECEIVED) /\
    (forall now' : Z,
        init now' req (snd (init now req w)) = init now req w).
Proof.
  intros Hf Hs Hu Hex.
  assert (Heq : forall t, init t req w =
     (InitOk uploadId
        (map chunk_index
           (List.filter is_received (find_all (of_upload uploadId) (chunks w))))
        (status existing), w)).
  { intros t. unfold init, init_body. rewrite Hf, Hs, Hu. run. by rewrite Hex. }
  eexists. split; [apply Heq|]. split; [|split].
  - unfold findOne in Hex. apply List.find_some in Hex as [_ H].
    by apply bool_decide_eq_true in H.
  - intros i. rewrite list_elem_of_fmap. split.
    + intros (c & -> & Hc). exists c.
      apply list_elem_of_In, filter_In in Hc as [Hc Hr].
      apply filter_In in Hc as [Hc Ho].
      apply bool_decide_eq_true in Hr, Ho.
      by rewrite list_elem_of_In.
    + intros (c & Hc & Ho & Hi & Hr). exists c. split; [done|].
      apply list_elem_of_In, filter_In. split.
      * apply filter_In. split; [by apply list_elem_of_In|].
        by apply bool_decide_eq_true.
      * by apply bool_decide_eq_true.
  - intros t. rewrite (Heq now). simpl. apply Heq.
Qed.

(** C4, as the code has it.  [init] answers 400 and leaves the world as it
    was when [uploadId], [filename] or [fileSize] is missing, when
    [uploadId] or [filename] is the empty string, or when [fileSize] is
    zero. *)
Theorem init_rejects_missing_fields (now : Z) (req : init_req) (w : world) :
  init_filename req = None \/ init_filename req = Some "" \/
  init_fileSize req = None \/ init_fileSize req = Some 0 \/
  init_uploadId req = None \/ init_uploadId req = Some "" ->
  init now req w = (InitBadRequest, w).
Proof.
  unfold init, init_body.
  intros [H|[H|[H|[H|[H|H]]]]]; rewrite H; simpl;
    repeat case_match; done.
Qed.

(** ** [finalizeUpload] run alone *)

Lemma fin_frame_refl (w : world) : fin_frame w w.
Proof.
  unfold fin_frame. repeat split. exists []. by rewrite app_nil_r.
Qed.

Lemma fin_frame_trans (w1 w2 w3 : world) :
  fin_frame w1 w2 -> fin_frame w2 w3 -> fin_frame w1 w3.
Proof.
  intros (Hc & Hd & Ht & n1 & Hn1 & F1) (Hc' & Hd' & Ht' & n2 & Hn2 & F2).
  unfold fin_frame. rewrite Hc', Hd', Ht', Hn2, Hn1.
  repeat split; try done.
  exists (n1 ++ n2). rewrite app_assoc. split; [done|].
  by apply Forall_app.
Qed.

Lemma fin_step_ok (now : Z) (uid : string) (pc : fin_pc) (w : world) :
  exists pc' w',
    fin_step now uid pc w = (Ok pc', w') /\ fin_frame w w' /\
    (awaits_left pc' <= pred (awaits_left pc))%nat.
Proof.
  destruct pc; simpl; run; unfold update_upload; run.
  - destruct (findOne _ _) as [d|]; [destruct (decide _)|];
      eexists _, _; (split; [reflexivity|]); (split; [apply fin_frame_refl|]);
      simpl; lia.
  - eexists _, _. split; [reflexivity|]. split; [|simpl; lia].
    unfold fin_frame; simpl. repeat split. eexists. split; [done|].
    by repeat constructor.
  - destruct (upload_dir w !! target_path uid);
      eexists _, _; (split; [reflexivity|]); (split; [apply fin_frame_refl|]);
      simpl; lia.
  - eexists _, _. split; [reflexivity|]. split; [apply fin_frame_refl|].
    simpl; lia.
  - eexists _, _. split; [reflexivity|]. split; [|simpl; lia].
    unfold fin_frame; simpl. repeat split. eexists. split; [done|].
    by repeat constructor.
  - eexists _, _. split; [reflexivity|]. split; [|simpl; lia].
    unfold fin_frame; simpl. repeat split. eexists. split; [done|].
    by repeat constructor.
  - eexists _, _. split; [reflexivity|]. split; [apply fin_frame_refl|].
    simpl; lia.
Qed.

Lemma fin_run_S (fuel : nat) (now : Z) (uid : string) (pc : fin_pc) (w : world) :
  pc <> FinDone ->
  fin_run (S fuel) now uid pc w =
    match fin_step now uid pc w with
    | (Ok pc', w') => fin_run fuel now uid pc' w'
    | (Thrown, w') => (Thrown, w')
    end.
Proof. destruct pc; done. Qed.

(** Given fuel for the awaits that are left, a call returns. *)
Lemma fin_run_ok (fuel : nat) (now : Z) (uid : string) (pc : fin_pc) (w : world) :
  (awaits_left pc <= fuel)%nat ->
  exists w', fin_run fuel now uid pc w = (Ok FinDone, w') /\ fin_frame w w'.
Proof.
  revert pc w. induction fuel as [|fuel IH]; intros pc w Hle.
  - destruct pc; simpl in Hle; try lia.
    exists w. split; [done|apply fin_frame_refl].
  - destruct (fin_step_ok now uid pc w) as (pc' & w1 & Hs & Hf & Hd).
    destruct (IH pc' w1 ltac:(lia)) as (w2 & Hr & Hf2).
    destruct (is_done pc) eqn:Hpc; [destruct pc; try done|].
    + exists w. split; [done|apply fin_frame_refl].
    + exists w2. split; [|by eapply fin_frame_trans].
      rewrite fin_run_S, Hs; [done|]. by intros ->.
Qed.

Lemma finalizeUpload_ok (now : Z) (uid : string) (w : world) :
  exists w', finalizeUpload now uid w = (Ok FinDone, w') /\ fin_frame w w'.
Proof. apply fin_run_ok. simpl. lia. Qed.

(** On a session that is not [UPLOADING], or is absent, the guard returns at
    once. *)
Lemma finalizeUpload_guard (now : Z) (uid : string) (w : world) :
  (forall d, findOne (has_id uid) (uploads w) = Some d -> status d <> UPLOADING) ->
  finalizeUpload now uid w = (Ok FinDone, w).
Proof.
  intros H. unfold finalizeUpload. simpl. run.
  destruct (findOne _ _) as [d|]; [|done].
  destruct (decide _) as [E|]; [|done]. by destruct (H d eq_refl).
Qed.

(** ** Positional writes *)

Lemma write_bytes_lookup (bs : list Byte.byte) (m : gmap Z Byte.byte) (pos k : Z) :
  write_bytes m pos bs !! k =
    if decide (pos <= k < pos + Z.of_nat (length bs))
    then bs !! Z.to_nat (k - pos) else m !! k.
Proof.
  revert m pos. induction bs as [|b bs IH]; intros m pos; simpl.
  - case_decide; [lia|done].
  - rewrite IH. repeat case_decide; try lia.
    + replace (Z.to_nat (k - pos)) with (S (Z.to_nat (k - (pos + 1)))) by lia.
      done.
    + assert (k = pos) as -> by lia.
      rewrite lookup_insert_eq. by replace (Z.to_nat (pos - pos)) with 0%nat by lia.
    + rewrite lookup_insert_ne by lia. done.
Qed.

Lemma pwrite_size (f : file) (offset : Z) (bs : list Byte.byte) :
  bs <> [] ->
  size (pwrite f offset bs) = Z.max (size f) (offset + Z.of_nat (length bs)).
Proof. by destruct bs. Qed.

Lemma pwrite_data (f : file) (offset k : Z) (bs : list Byte.byte) :
  data (pwrite f offset bs) !! k =
    if decide (offset <= k < offset + Z.of_nat (length bs))
    then bs !! Z.to_nat (k - offset) else data f !! k.
Proof.
  destruct bs as [|b bs].
  - simpl. case_decide; [lia|done].
  - unfold pwrite. cbn [data]. apply write_bytes_lookup.
Qed.

Lemma pwrite_wf (f : file) (offset : Z) (bs : list Byte.byte) :
  0 <= offset -> wf_file f -> wf_file (pwrite f offset bs).
Proof.
  intros Hoff [Hs Hd]. destruct bs as [|b bs]; [done|].
  split.
  - rewrite pwrite_size by done. lia.
  - intros k. rewrite pwrite_data, pwrite_size by done.
    case_decide; [lia|]. intros Hk. apply Hd in Hk. lia.
Qed.

(** One positional write, at an offset that is not negative and with a
    payload that is not empty, gives a file that reads the payload over the
    range written, zero over the hole it may leave past the old end, and the
    old bytes everywhere else; the file grows to the end of the range when
    that lies past the old end, and never shrinks. *)
Lemma pwrite_reads (f : file) (offset : Z) (bs : list Byte.byte) (k : Z) :
  wf_file f -> 0 <= offset -> bs <> [] ->
  size (pwrite f offset bs) = Z.max (size f) (offset + Z.of_nat (length bs)) /\
  read_byte (pwrite f offset bs) k =
    if decide (offset <= k < offset + Z.of_nat (length bs))
    then bs !! Z.to_nat (k - offset)
    else if decide (0 <= k < size f) then read_byte f k
    else if decide (size f <= k < offset) then Some Byte.x00
    else None.
Proof.
  intros [Hs Hd] Hoff Hbs. split; [by apply pwrite_size|].
  unfold read_byte. rewrite pwrite_size, pwrite_data by done.
  repeat case_decide; try lia; try done.
  - destruct (lookup_lt_is_Some_2 bs (Z.to_nat (k - offset)) ltac:(lia)) as [b ->].
    done.
  - destruct (data f !! k) eqn:E; [|done].
    assert (0 <= k < size f) by (apply Hd; eauto). lia.
Qed.

Lemma pwrite_disjoint (f : file) (o1 o2 : Z) (b1 b2 : list Byte.byte) :
  o1 + Z.of_nat (length b1) <= o2 \/ o2 + Z.of_nat (length b2) <= o1 ->
  pwrite (pwrite f o1 b1) o2 b2 = pwrite (pwrite f o2 b2) o1 b1.
Proof.
  intros Hdisj.
  destruct b1 as [|x1 b1]; [done|]. destruct b2 as [|x2 b2]; [done|].
  assert (Hd : data (pwrite (pwrite f o1 (x1 :: b1)) o2 (x2 :: b2)) =
               data (pwrite (pwrite f o2 (x2 :: b2)) o1 (x1 :: b1))).
  { apply map_eq. intros k. rewrite !pwrite_data.
    repeat case_decide; try done; lia. }
  assert (Hs : size (pwrite (pwrite f o1 (x1 :: b1)) o2 (x2 :: b2)) =
               size (pwrite (pwrite f o2 (x2 :: b2)) o1 (x1 :: b1))).
  { rewrite !pwrite_size by done. lia. }
  destruct (pwrite (pwrite f o1 _) o2 _), (pwrite (pwrite f o2 _) o1 _).
  simpl in *. by subst.
Qed.

Lemma max_safe_integer : MAX_SAFE_INTEGER = 9007199254740991.
Proof. reflexivity. Qed.

(** Where the chunk of a given index lands: at [chunkIdx * CHUNK_SIZE] for
    the indices from 0 to 1717986918, whose offset is a safe integer, and at
    the start of the file for every other number. *)
Lemma write_position_offset (idx : number) :
  write_position (offset_of idx) =
    match idx with
    | Int z => if decide (0 <= z < 1717986919) then z * CHUNK_SIZE else 0
    | _ => 0
    end.
Proof.
  destruct idx as [| |z]; [done..|]. unfold offset_of, write_position.
  rewrite max_safe_integer. unfold CHUNK_SIZE. repeat case_decide; lia.
Qed.

Lemma write_position_nonneg (offset : number) : 0 <= write_position offset.
Proof.
  destruct offset as [| |z]; simpl; [lia..|]. case_decide; lia.
Qed.

(** The bytes of a payload are read back from where they were written. *)
Lemma pwrite_holds_payload (f : file) (offset : Z) (bs : list Byte.byte)
    (n : nat) (b : Byte.byte) :
  0 <= offset -> bs !! n = Some b ->
  read_byte (pwrite f offset bs) (offset + Z.of_nat n) = Some b.
Proof.
  intros Hoff Hb. pose proof (lookup_lt_Some _ _ _ Hb) as Hn.
  assert (bs <> []) by (intros ->; simpl in Hn; lia).
  unfold read_byte. rewrite pwrite_size by done. rewrite pwrite_data.
  rewrite decide_True by lia. rewrite decide_True by lia.
  replace (Z.to_nat (offset + Z.of_nat n - offset)) with n by lia.
  by rewrite Hb.
Qed.

(** ** The paths of [receive_chunk] *)

Lemma receive_chunk_stored (now : Z) (req : chunk_req) (w : world)
    (uid p tc : string) (idx : number) (u : upload_doc) (t : temp_file) :
  truthy_string (chunk_uploadId req) = Some uid ->
  chunk_chunkIndex req = Some idx ->
  truthy_string (chunk_totalChunks req) = Some tc ->
  findOne (has_id uid) (uploads w) = Some u ->
  already_received (findOne (chunk_matches uid idx) (chunks w)) = false ->
  chunk_file req = Some p ->
  temp_dir w !! p = Some t ->
  let w1 := stored_world now uid idx p (tdata t) w in
  let isComplete := bool_decide (receivedCount uid w1 = totalCount uid w1) in
  receive_chunk now DiskOk req w =
    (ChunkStored isComplete (receivedCount uid w1) (totalCount uid w1),
     if isComplete then snd (finalizeUpload now uid w1) else w1).
Proof.
  intros Hu Hi Ht Hup Hnr Hp Htemp w1 isComplete.
  unfold receive_chunk, chunk_body. rewrite Hu, Hi, Ht, Hp. run.
  rewrite Hup, Hnr. unfold readFile. run. rewrite Htemp.
  unfold write_chunk. run. unfold unlink_path, unlink_temp. run.
  rewrite Htemp. unfold mark_received. run.
  repeat rewrite <- app_assoc. simpl.
  fold (stored_world now uid idx p (tdata t) w). fold w1.
  unfold isComplete, receivedCount, totalCount. simpl.
  destruct (bool_decide _); [|done].
  destruct (finalizeUpload_ok now uid w1) as (w2 & -> & _). done.
Qed.

Lemma receive_chunk_cases (now : Z) (disk : disk_outcome) (req : chunk_req)
    (w : world) :
  stops_short (receive_chunk now disk req w) w \/
  exists uid p idx t, takes_store_path disk req w uid p idx t.
Proof.
  unfold receive_chunk, chunk_body.
  destruct (truthy_string (chunk_uploadId req)) as [uid|] eqn:Hu; [|short_path].
  destruct (chunk_chunkIndex req) as [idx|] eqn:Hi; [|short_path].
  destruct (truthy_string (chunk_totalChunks req)) as [tc|] eqn:Ht; [|short_path].
  run.
  destruct (findOne (has_id uid) (uploads w)) as [u|] eqn:Hup; [|short_path].
  destruct (already_received _) eqn:Hnr; [short_path|].
  destruct (chunk_file req) as [p|] eqn:Hp; [|short_path].
  unfold readFile. run.
  destruct (temp_dir w !! p) as [t|] eqn:Htemp; [|short_path].
  destruct disk.
  - right. exists uid, p, idx, t. unfold takes_store_path. eauto 12.
  - unfold write_chunk. short_path.
  - unfold write_chunk. short_path.
Qed.

Lemma no_mark_in (new pre post : list event) (e : event) :
  Forall (fun e => is_mark e = false) new ->
  is_mark e = true ->
  new <> pre ++ e :: post.
Proof.
  intros HF He ->. apply Forall_app in HF as [_ HF].
  apply Forall_cons in HF as [HF _]. congruence.
Qed.

Lemma mark_is_fourth (a b c mk e : event) (fin pre post : list event) :
  is_mark a = false -> is_mark b = false -> is_mark c = false ->
  Forall (fun e => is_mark e = false) fin ->
  is_mark e = true ->
  [a; b; c; mk] ++ fin = pre ++ e :: post ->
  pre = [a; b; c] /\ e = mk.
Proof.
  intros Ha Hb Hc HF He Heq.
  destruct pre as [|x1 [|x2 [|x3 [|x4 pre]]]]; simpl in Heq; simplify_eq;
    try congruence; [done|].
  by destruct (no_mark_in _ pre post e HF He).
Qed.

Lemma upload_updates_no_mark (l : list event) :
  Forall (fun e => is_upload_update e = true) l ->
  Forall (fun e => is_mark e = false) l.
Proof. intros H. eapply Forall_impl; [exact H|]. by intros []. Qed.

Lemma chunks_after_store (now : Z) (uid : string) (w1 : world) (b : bool) :
  chunks (if b then snd (finalizeUpload now uid w1) else w1) = chunks w1 /\
  upload_dir (if b then snd (finalizeUpload now uid w1) else w1) = upload_dir w1.
Proof.
  destruct b; [|done].
  destruct (finalizeUpload_ok now uid w1) as (w2 & -> & Hc & Hd & _).
  simpl. by rewrite Hc, Hd.
Qed.

Lemma write_chunk_ok (targetPath : string) (offset : number)
    (chunkData : list Byte.byte) (w : world) :
  exists w1,
    write_chunk DiskOk targetPath offset chunkData w = (Ok tt, w1) /\
    uploads w1 = uploads w /\ chunks w1 = chunks w /\ temp_dir w1 = temp_dir w /\
    upload_dir w1 =
      <[targetPath := pwrite (default empty_file (upload_dir w !! targetPath))
                             (write_position offset) chunkData]> (upload_dir w).
Proof. eexists. unfold write_chunk. run. done. Qed.

(** C7. In every call of [receive_chunk] the write into the target file
    comes before the mark.  In the trace, an [updateOne] that marks a chunk
    record is preceded, within the same call, by the write into the target
    file of that upload.  In the store, a call either leaves the [chunks]
    collection as it was and issues no mark, or it has first run the open
    and the write to their end: in the world they leave no chunk record
    has changed yet and the target file holds the payload at the position
    of the chunk, every byte of it reading back from there, and what the
    call leaves in [chunks] is the mark applied to that world, with that
    file still in place.  When the open or the write fails no chunk record
    is marked: the [chunks] collection is as it was, so a [PENDING] record
    stays [PENDING], and the call does not report the chunk as stored. *)
Theorem write_precedes_mark (now : Z) (disk : disk_outcome) (req : chunk_req)
    (w : world) :
  exists new : list event,
    trace (snd (receive_chunk now disk req w)) = trace w ++ new /\
    (forall pre post uid idx m,
        new = pre ++ EvUpdateChunk uid idx m :: post ->
        exists len,
          EvFileWrite (target_path uid) (write_position (offset_of idx)) len ∈ pre) /\
    ((chunks (snd (receive_chunk now disk req w)) = chunks w /\
      Forall (fun e => is_mark e = false) new) \/
     (exists uid idx p t w1 f1,
        truthy_string (chunk_uploadId req) = Some uid /\
        chunk_chunkIndex req = Some idx /\
        chunk_file req = Some p /\
        temp_dir w !! p = Some t /\
        write_chunk disk (target_path uid) (offset_of idx) (tdata t) w = (Ok tt, w1) /\
        chunks w1 = chunks w /\
        upload_dir w1 !! target_path uid = Some f1 /\
        f1 = pwrite (default empty_file (upload_dir w !! target_path uid))
                    (write_position (offset_of idx)) (tdata t) /\
        (forall n b, tdata t !! n = Some b ->
           read_byte f1 (write_position (offset_of idx) + Z.of_nat n) = Some b) /\
        chunks (snd (receive_chunk now disk req w)) =
          updateOne (chunk_matches uid idx) (set_received now) (chunks w1) /\
        upload_dir (snd (receive_chunk now disk req w)) = upload_dir w1)) /\
    (disk = DiskOk \/
     (chunks (snd (receive_chunk now disk req w)) = chunks w /\
      Forall (fun e => is_mark e = false) new /\
      forall b rc tc, fst (receive_chunk now disk req w) <> ChunkStored b rc tc)).
Proof.
  destruct (receive_chunk_cases now disk req w)
    as [(Hc & _ & Hr & new & Ht & HF) | (uid & p & idx & t & Hpath)].
  - exists new. split; [done|]. split; [|split; [by left|by right]].
    intros pre post uid idx m Heq.
    by destruct (no_mark_in _ pre post (EvUpdateChunk uid idx m) HF eq_refl).
  - destruct Hpath as (-> & Hu & Hi & [tc Ht] & [u Hup] & Hnr & Hp & Htemp).
    rewrite (receive_chunk_stored now req w uid p tc idx u t) by done.
    set (w1 := stored_world now uid idx p (tdata t) w).
    assert (exists fin, trace (if bool_decide (receivedCount uid w1 = totalCount uid w1)
                              then snd (finalizeUpload now uid w1) else w1)
                        = trace w1 ++ fin /\
                        Forall (fun e => is_mark e = false) fin) as (fin & Hfin & HF).
    { destruct (bool_decide _).
      - destruct (finalizeUpload_ok now uid w1) as (w2 & -> & _ & _ & _ & fin & Hfin & HF).
        exists fin. split; [done|]. by apply upload_updates_no_mark.
      - exists []. split; [by rewrite app_nil_r|constructor]. }
    destruct (chunks_after_store now uid w1
                (bool_decide (receivedCount uid w1 = totalCount uid w1))) as [Hcs Hds].
    eexists. split; [|split; [|split; [|by left]]].
    + simpl. rewrite Hfin. simpl. rewrite <- app_assoc. reflexivity.
    + intros pre post uid' idx' m Heq.
      apply mark_is_fourth in Heq as [-> [= -> -> _]]; try done.
      eexists. apply list_elem_of_In. right. left. reflexivity.
    + right.
      destruct (write_chunk_ok (target_path uid) (offset_of idx) (tdata t) w)
        as (wm & Hw & _ & Hcm & _ & Hdm).
      exists uid, idx, p, t, wm. eexists. cbn [snd]. rewrite Hcs, Hds, Hcm, Hdm.
      split; [done|]. split; [done|]. split; [done|]. split; [done|].
      split; [done|]. split; [done|]. split; [by rewrite lookup_insert_eq|].
      split; [done|]. split; [|done].
      intros n b Hb. apply pwrite_holds_payload; [|done].
      apply write_position_nonneg.
Qed.

(** C9. The [totalChunks] part of the request only has to be present: two
    calls that differ in nothing but its (non-empty) text give the same
    response and the same world; and the counts in a 200 response, as well
    as [isComplete], which alone decides whether [finalizeUpload] is called,
    are those of the chunk records stored for the upload id. *)
Theorem totalChunks_field_unused (now : Z) (disk : disk_outcome)
    (req : chunk_req) (w : world) (tc1 tc2 : string) :
  tc1 <> "" -> tc2 <> "" ->
  receive_chunk now disk (with_totalChunks req (Some tc1)) w =
  receive_chunk now disk (with_totalChunks req (Some tc2)) w /\
  forall uid b rc tc,
    truthy_string (chunk_uploadId req) = Some uid ->
    fst (receive_chunk now disk (with_totalChunks req (Some tc1)) w) =
      ChunkStored b rc tc ->
    rc = receivedCount uid (snd (receive_chunk now disk (with_totalChunks req (Some tc1)) w)) /\
    tc = totalCount uid (snd (receive_chunk now disk (with_totalChunks req (Some tc1)) w)) /\
    b = bool_decide (rc = tc).
Proof.
  intros H1 H2. split.
  - unfold receive_chunk, chunk_body, with_totalChunks. simpl.
    destruct (decide (tc1 = "")); [done|]. destruct (decide (tc2 = "")); done.
  - intros uid b rc tc Hu Hr.
    destruct (receive_chunk_cases now disk (with_totalChunks req (Some tc1)) w)
      as [(_ & _ & Hns & _) | (uid' & p & idx & t & Hpath)].
    { by destruct (Hns b rc tc). }
    destruct Hpath as (-> & Hu' & Hi & [tc' Ht] & [u Hup] & Hnr & Hp & Htemp).
    simpl in Hu'. rewrite Hu in Hu'. injection Hu' as <-.
    revert Hr.
    rewrite (receive_chunk_stored now _ w uid p tc' idx u t) by done.
    set (w1 := stored_world now uid idx p (tdata t) w).
    set (complete := bool_decide _).
    destruct (chunks_after_store now uid w1 complete) as [Hc _].
    cbn [fst snd]. intros [= <- <- <-].
    unfold receivedCount, totalCount. by rewrite Hc.
Qed.

(** C10, as the code has it.  A call for a chunk index that matches no
    chunk record (an index at or past [total_chunks], a negative one,
    [NaN]), on an existing session, with its payload spooled and the disk
    working: the payload is written into the target file and the call
    answers 200; the [updateOne] matches nothing, so the [chunks] collection
    is as it was and so is the received count.  The payload lands at offset
    [chunk_index * CHUNK_SIZE] when the index is an integer from 0 to
    1717986918, and at the start of the file otherwise; every byte of it
    reads back from there. *)
Theorem unknown_index_written_not_recorded (now : Z) (req : chunk_req)
    (w : world) (uid p tc : string) (idx : number) (u : upload_doc) (t : temp_file) :
  truthy_string (chunk_uploadId req) = Some uid ->
  chunk_chunkIndex req = Some idx ->
  truthy_string (chunk_totalChunks req) = Some tc ->
  findOne (has_id uid) (uploads w) = Some u ->
  findOne (chunk_matches uid idx) (chunks w) = None ->
  chunk_file req = Some p ->
  temp_dir w !! p = Some t ->
  fst (receive_chunk now DiskOk req w) =
    ChunkStored (bool_decide (receivedCount uid w = totalCount uid w))
                (receivedCount uid w) (totalCount uid w) /\
  upload_dir (snd (receive_chunk now DiskOk req w)) !! target_path uid =
    Some (pwrite (default empty_file (upload_dir w !! target_path uid))
                 match idx with
                 | Int z => if decide (0 <= z < 1717986919)
                            then z * CHUNK_SIZE else 0
                 | _ => 0
                 end
                 (tdata t)) /\
  (forall f n b,
     upload_dir (snd (receive_chunk now DiskOk req w)) !! target_path uid = Some f ->
     tdata t !! n = Some b ->
     read_byte f (match idx with
                  | Int z => if decide (0 <= z < 1717986919)
                             then z * CHUNK_SIZE else 0
                  | _ => 0
                  end + Z.of_nat n) = Some b) /\
  chunks (snd (receive_chunk now DiskOk req w)) = chunks w /\
  receivedCount uid (snd (receive_chunk now DiskOk req w)) = receivedCount uid w /\
  exists fin,
    trace (snd (receive_chunk now DiskOk req w)) =
      trace w ++
      [EvFileOpen (target_path uid);
       EvFileWrite (target_path uid) (write_position (offset_of idx))
                   (length (tdata t));
       EvUnlinkTemp p;
       EvUpdateChunk uid idx false] ++ fin.
Proof.
  intros Hu Hi Ht Hup Hnone Hp Htemp.
  assert (Hnr : already_received (findOne (chunk_matches uid idx) (chunks w)) = false)
    by (by rewrite Hnone).
  rewrite (receive_chunk_stored now req w uid p tc idx u t) by done.
  set (w1 := stored_world now uid idx p (tdata t) w).
  assert (Hc1 : chunks w1 = chunks w).
  { simpl. by apply updateOne_no_match. }
  assert (Hrc : receivedCount uid w1 = receivedCount uid w)
    by (unfold receivedCount; by rewrite Hc1).
  assert (Htc : totalCount uid w1 = totalCount uid w)
    by (unfold totalCount; by rewrite Hc1).
  rewrite Hrc, Htc. simpl fst. simpl snd.
  set (b := bool_decide _).
  destruct (chunks_after_store now uid w1 b) as [Hc Hd].
  assert (Hfile : upload_dir (if b then snd (finalizeUpload now uid w1) else w1)
                    !! target_path uid =
                  Some (pwrite (default empty_file (upload_dir w !! target_path uid))
                               (write_position (offset_of idx)) (tdata t))).
  { rewrite Hd. simpl. by rewrite lookup_insert_eq. }
  rewrite <- write_position_offset.
  split; [done|]. split; [exact Hfile|].
  split.
  { intros f n c Hf Hn. rewrite Hfile in Hf. injection Hf as <-.
    apply pwrite_holds_payload; [apply write_position_nonneg|done]. }
  split; [by rewrite Hc|].
  split; [unfold receivedCount; by rewrite Hc, Hc1|].
  destruct b.
  - destruct (finalizeUpload_ok now uid w1) as (w2 & -> & _ & _ & _ & fin & Hfin & _).
    exists fin. cbn [snd]. rewrite Hfin. simpl. unfold findOne in Hnone.
    rewrite (find_none_existsb _ _ Hnone). by rewrite <- app_assoc.
  - exists []. simpl. unfold findOne in Hnone.
    by rewrite (find_none_existsb _ _ Hnone).
Qed.

Lemma set_received_matches (now : Z) (uid : string) (idx : number) (c : chunk_doc) :
  chunk_matches uid idx c = true ->
  chunk_matches uid idx (set_received now c) = true.
Proof. done. Qed.

Lemma chunk_matches_index (uid : string) (idx : number) (c : chunk_doc) :
  chunk_matches uid idx c = true ->
  upload_id c = uid /\ idx = Int (Z.of_N (chunk_index c)).
Proof.
  unfold chunk_matches, index_is. intros H. apply andb_prop in H as [H1 H2].
  apply bool_decide_eq_true in H1. destruct idx as [| |z]; try done.
  apply bool_decide_eq_true in H2. by subst.
Qed.

Lemma findOne_chunk_index (uid : string) (idx : number) (cs : list chunk_doc)
    (c : chunk_doc) :
  findOne (chunk_matches uid idx) cs = Some c ->
  c ∈ cs /\ upload_id c = uid /\ idx = Int (Z.of_N (chunk_index c)).
Proof.
  unfold findOne. intros H. apply List.find_some in H as [Hin H].
  split; [by apply list_elem_of_In|]. by apply chunk_matches_index.
Qed.

(** C2, as the code has it.  [receive_chunk] checks no length: on an
    existing session whose chunk record for the index is [PENDING], with
    the payload spooled and the disk working, a payload of any length is
    written into the target file, the call answers 200 and the chunk record
    becomes [RECEIVED].  The payload lands at offset
    [chunk_index * CHUNK_SIZE], for every index whose offset is a safe
    integer (every index below 1717986919); a record of a higher index has
    its payload land at the start of the file. *)
Theorem chunk_stored_whatever_length (now : Z) (req : chunk_req) (w : world)
    (uid p tc : string) (idx : number) (u : upload_doc) (c : chunk_doc)
    (t : temp_file) :
  truthy_string (chunk_uploadId req) = Some uid ->
  chunk_chunkIndex req = Some idx ->
  truthy_string (chunk_totalChunks req) = Some tc ->
  findOne (has_id uid) (uploads w) = Some u ->
  findOne (chunk_matches uid idx) (chunks w) = Some c ->
  cstatus c = PENDING ->
  chunk_file req = Some p ->
  temp_dir w !! p = Some t ->
  (exists b rc n, fst (receive_chunk now DiskOk req w) = ChunkStored b rc n) /\
  idx = Int (Z.of_N (chunk_index c)) /\
  upload_dir (snd (receive_chunk now DiskOk req w)) !! target_path uid =
    Some (pwrite (default empty_file (upload_dir w !! target_path uid))
                 (if decide (Z.of_N (chunk_index c) < 1717986919)
                  then Z.of_N (chunk_index c) * CHUNK_SIZE else 0)
                 (tdata t)) /\
  findOne (chunk_matches uid idx) (chunks (snd (receive_chunk now DiskOk req w))) =
    Some (set_received now c).
Proof.
  intros Hu Hi Ht Hup Hc Hpend Hp Htemp.
  assert (Hnr : already_received (findOne (chunk_matches uid idx) (chunks w)) = false).
  { rewrite Hc. simpl. unfold is_received. rewrite Hpend. done. }
  destruct (findOne_chunk_index _ _ _ _ Hc) as (_ & _ & Hidx).
  rewrite (receive_chunk_stored now req w uid p tc idx u t) by done.
  set (w1 := stored_world now uid idx p (tdata t) w).
  simpl fst. simpl snd. set (b := bool_decide _).
  destruct (chunks_after_store now uid w1 b) as [Hc' Hd].
  split; [by eexists _, _, _|]. split; [done|]. rewrite Hc', Hd. simpl. split.
  - rewrite lookup_insert_eq, write_position_offset, Hidx. do 2 f_equal.
    apply decide_ext. lia.
  - unfold findOne in *. apply find_updateOne; [|done].
    intros y. apply set_received_matches.
Qed.

Lemma uploads_after_guarded_store (now : Z) (uid : string) (w1 : world) (b : bool) :
  (forall d, findOne (has_id uid) (uploads w1) = Some d -> status d <> UPLOADING) ->
  uploads (if b then snd (finalizeUpload now uid w1) else w1) = uploads w1.
Proof.
  intros H. destruct b; [|done]. by rewrite finalizeUpload_guard.
Qed.

(** C3, as the code has it.  [receive_chunk] never looks at the session's
    status.  On an existing session that is not [UPLOADING] the session
    record is never modified by the call; and when the chunk record for the
    index is [RECEIVED] (and the spooled part, if any, is in the scratch
    directory) the call answers 200 with "Chunk already uploaded" and the
    payload is discarded: the target files and both collections are as they
    were. *)
Theorem sealed_session_chunk_call (now : Z) (disk : disk_outcome)
    (req : chunk_req) (w : world) (uid tc : string) (idx : number) (u : upload_doc) :
  truthy_string (chunk_uploadId req) = Some uid ->
  chunk_chunkIndex req = Some idx ->
  truthy_string (chunk_totalChunks req) = Some tc ->
  findOne (has_id uid) (uploads w) = Some u ->
  status u <> UPLOADING ->
  uploads (snd (receive_chunk now disk req w)) = uploads w /\
  forall c,
    findOne (chunk_matches uid idx) (chunks w) = Some c ->
    cstatus c = RECEIVED ->
    (forall p, chunk_file req = Some p -> is_Some (temp_dir w !! p)) ->
    fst (receive_chunk now disk req w) = ChunkAlreadyUploaded /\
    chunks (snd (receive_chunk now disk req w)) = chunks w /\
    upload_dir (snd (receive_chunk now disk req w)) = upload_dir w.
Proof.
  intros Hu Hi Ht Hup Hst. split.
  - destruct (receive_chunk_cases now disk req w)
      as [(_ & Hups & _) | (uid' & p & idx' & t & Hpath)]; [done|].
    destruct Hpath as (-> & Hu' & Hi' & [tc' Ht'] & [u' Hup'] & Hnr & Hp & Htemp).
    simplify_eq.
    rewrite (receive_chunk_stored now req w uid p tc idx u t) by done.
    simpl snd. rewrite uploads_after_guarded_store; [done|].
    simpl. intros d Hd. by simplify_eq.
  - intros c Hc Hrec Hspool.
    unfold receive_chunk, chunk_body. rewrite Hu, Hi, Ht. run.
    rewrite Hup, Hc. simpl. unfold is_received. rewrite Hrec. simpl.
    unfold unlink_if_set, unlink_temp. run.
    destruct (chunk_file req) as [p|]; [|done].
    destruct (Hspool p eq_refl) as [t ->]. done.
Qed.

(** ** The janitor *)

Lemma unlink_targets_ok (docs : list upload_doc) (w : world) :
  exists w', unlink_targets docs w = (Ok tt, w') /\
    uploads w' = uploads w /\ chunks w' = chunks w /\
    temp_dir w' = temp_dir w /\
    upload_dir w' =
      foldl (fun d u => delete (target_path (id u)) d) (upload_dir w) docs.
Proof.
  revert w. induction docs as [|u docs IH]; intros w; simpl.
  - by exists w.
  - unfold unlink_target. run.
    destruct (upload_dir w !! target_path (id u)) eqn:E; simpl.
    + edestruct IH as (w' & -> & ? & ? & ? & ?). eexists. split; [done|]. done.
    + edestruct IH as (w' & -> & ? & ? & ? & Hd). eexists. split; [done|].
      repeat split; try done. rewrite Hd. by rewrite (delete_id _ _ E).
Qed.

Lemma sweep_temp_frame (now : Z) (entries : list (string * temp_file))
    (w w' : world) (r : result unit) :
  sweep_temp now entries w = (r, w') ->
  uploads w' = uploads w /\ chunks w' = chunks w /\ upload_dir w' = upload_dir w.
Proof.
  revert w. induction entries as [|[p t] entries IH]; intros w; simpl.
  - run. by intros [= _ <-].
  - unfold unlink_temp. run.
    destruct (decide _); [destruct (temp_dir w !! p)|]; simpl;
      try (by intros [= _ <-]);
      intros H; by apply IH in H.
Qed.

(** The sweep rewrites [uploads] with [deleteMany], unlinks the target files
    of the sessions it found, and never touches [chunks]. *)
Lemma cleanup_collections (now : Z) (w : world) :
  uploads (cleanupOldUploads now w) =
    deleteMany (expired (now - RETENTION_MS)) (uploads w) /\
  chunks (cleanupOldUploads now w) = chunks w /\
  upload_dir (cleanupOldUploads now w) =
    foldl (fun d u => delete (target_path (id u)) d) (upload_dir w)
          (find_all (expired (now - RETENTION_MS)) (uploads w)).
Proof.
  unfold cleanupOldUploads, cleanup_body. run.
  destruct (unlink_targets_ok (find_all (expired (now - RETENTION_MS)) (uploads w)) w)
    as (w1 & -> & Hu & Hc & Ht & Hd).
  destruct (sweep_temp now _ _) as [[[]|] w2] eqn:E;
    apply sweep_temp_frame in E as (Hu2 & Hc2 & Hd2); simpl in *;
    by rewrite Hu2, Hc2, Hd2, Hu.
Qed.

(** No [COMPLETED] or [PROCESSING] session is deleted or changed. *)
Lemma cleanup_keeps_sealed (now : Z) (w : world) (u : upload_doc) :
  u ∈ uploads w ->
  status u = COMPLETED \/ status u = PROCESSING ->
  u ∈ uploads (cleanupOldUploads now w).
Proof.
  intros Hin Hst. destruct (cleanup_collections now w) as [-> _].
  apply list_elem_of_In, filter_In. split; [by apply list_elem_of_In|].
  unfold expired. by destruct Hst as [-> | ->].
Qed.

(** What remains in [uploads] was there before, unchanged. *)
Lemma cleanup_only_deletes (now : Z) (w : world) (u : upload_doc) :
  u ∈ uploads (cleanupOldUploads now w) -> u ∈ uploads w.
Proof.
  destruct (cleanup_collections now w) as [-> _].
  intros H. apply list_elem_of_In, filter_In in H as [H _].
  by apply list_elem_of_In.
Qed.

(** Every expired [UPLOADING] or [FAILED] session is gone after the sweep. *)
Lemma cleanup_deletes_expired (now : Z) (w : world) (u : upload_doc) :
  status u = UPLOADING \/ status u = FAILED ->
  created_at u < now - RETENTION_MS ->
  u ∉ uploads (cleanupOldUploads now w).
Proof.
  intros Hst Hold. destruct (cleanup_collections now w) as [-> _].
  intros H. apply list_elem_of_In, filter_In in H as [_ H].
  unfold expired in H. apply Z.ltb_lt in Hold. rewrite Hold in H.
  destruct Hst as [E|E]; rewrite E in H; done.
Qed.

Lemma foldl_delete_lookup (docs : list upload_doc) (d : gmap string file)
    (q : string) :
  foldl (fun d u => delete (target_path (id u)) d) d docs !! q =
    if existsb (targets q) docs then None else d !! q.
Proof.
  revert d. induction docs as [|u docs IH]; intros d; simpl; [done|].
  rewrite IH. unfold targets at 2.
  destruct (existsb _ docs); simpl.
  - by rewrite orb_true_r.
  - rewrite orb_false_r. case_bool_decide as E.
    + subst. by rewrite lookup_delete_eq.
    + by rewrite lookup_delete_ne.
Qed.

(** The file at a path goes exactly when the path is the target path of a
    session that was found expired. *)
Lemma cleanup_target_files (now : Z) (w : world) (q : string) :
  upload_dir (cleanupOldUploads now w) !! q =
    if existsb (targets q) (find_all (expired (now - RETENTION_MS)) (uploads w))
    then None else upload_dir w !! q.
Proof.
  destruct (cleanup_collections now w) as (_ & _ & ->).
  apply foldl_delete_lookup.
Qed.

(** ** Finalization without interleaving runs once *)

Lemma updated_guarded (uid : string) (upd : upload_doc -> upload_doc)
    (us : list upload_doc) (d : upload_doc) :
  (forall y, status (upd y) <> UPLOADING) ->
  (forall y, has_id uid y = true -> has_id uid (upd y) = true) ->
  List.find (has_id uid) (updateOne (has_id uid) upd us) = Some d ->
  status d <> UPLOADING.
Proof.
  intros Hst Hid. destruct (List.find (has_id uid) us) as [d0|] eqn:E.
  - rewrite (find_updateOne _ _ _ d0 Hid E). by intros [= <-].
  - rewrite (updateOne_no_match _ _ _ E), E. done.
Qed.

Lemma fin_step_sealed (now : Z) (uid : string) (pc pc' : fin_pc) (w w' : world) :
  fin_step now uid pc w = (Ok pc', w') ->
  sealed_at uid pc w -> sealed_at uid pc' w'.
Proof.
  destruct pc; simpl; unfold update_upload; run.
  - destruct (findOne (has_id uid) (uploads w)) as [d|] eqn:E.
    + destruct (decide _); intros [= <- <-] _; simpl; [done|].
      intros d' Hd'. rewrite E in Hd'. by simplify_eq.
    + intros [= <- <-] _ d' Hd'. by rewrite E in Hd'.
  - intros [= <- <-] _ d. simpl. by apply updated_guarded.
  - destruct (upload_dir w !! target_path uid); by intros [= <- <-].
  - by intros [= <- <-].
  - intros [= <- <-] _ d. simpl. by apply updated_guarded.
  - intros [= <- <-] _ d. simpl. by apply updated_guarded.
  - by intros [= <- <-].
Qed.

Lemma fin_run_sealed (fuel : nat) (now : Z) (uid : string) (pc : fin_pc)
    (w w' : world) :
  fin_run fuel now uid pc w = (Ok FinDone, w') ->
  sealed_at uid pc w -> guarded uid w'.
Proof.
  revert pc w. induction fuel as [|fuel IH]; intros pc w.
  - simpl. run. by intros [= -> <-].
  - destruct (is_done pc) eqn:Hpc.
    + destruct pc; try done. simpl. run. by intros [= <-].
    + rewrite fin_run_S by (by intros ->).
      destruct (fin_step now uid pc w) as [[pc1|] w1] eqn:Hs; [|done].
      intros Hr Hseal. eapply IH; [exact Hr|].
      by eapply fin_step_sealed.
Qed.

(** A call that has returned leaves the session, if any, out of
    [UPLOADING]: the guard of a later call returns at once, and nothing
    more is written. *)
Lemma finalizeUpload_then_guard (now now' : Z) (uid : string) (w : world) :
  finalizeUpload now' uid (snd (finalizeUpload now uid w)) =
    (Ok FinDone, snd (finalizeUpload now uid w)).
Proof.
  apply finalizeUpload_guard.
  destruct (finalizeUpload_ok now uid w) as (w' & Hr & _).
  rewrite Hr. simpl. by eapply (fin_run_sealed 5 now uid FinFind w).
Qed.

(** ** The scenarios, evaluated *)

(** C1, on the code.  Two workers that both saw every chunk [RECEIVED] call
    [finalizeUpload]; each runs its [findOne] before the other's
    [updateOne].  Both pass the guard, [final_hash] is written twice and
    the session is set to [COMPLETED] twice, going back from [COMPLETED] to
    [PROCESSING] in between: the guard and the update are two store
    operations, not one compare-and-set. *)
Theorem finalize_race_writes_hash_twice :
  receivedCount "u1" both_marked = totalCount "u1" both_marked /\
  map status (uploads both_marked) = [UPLOADING] /\
  all_done raced = true /\
  hash_writes "u1" (trace (shared raced)) = 2%nat /\
  times_set "u1" COMPLETED (trace (shared raced)) = 2%nat /\
  List.filter is_upload_update (trace (shared raced)) =
    [EvUpdateUpload "u1" PROCESSING None;
     EvUpdateUpload "u1" COMPLETED (Some (SHA256 one_byte_file));
     EvUpdateUpload "u1" PROCESSING None;
     EvUpdateUpload "u1" COMPLETED (Some (SHA256 one_byte_file))].
Proof. vm_compute. repeat split; reflexivity. Qed.

(** The same two calls one after the other write the hash once. *)
Example finalize_in_turn_writes_hash_once :
  hash_writes "u1"
    (trace (snd (finalizeUpload 310 "u1" (snd (finalizeUpload 300 "u1" both_marked)))))
  = 1%nat.
Proof. vm_compute. reflexivity. Qed.

(** C2 fails on the code: the only chunk of a ten-byte upload should be ten
    bytes long; a payload of one byte is written, the call answers 200 and
    the record becomes [RECEIVED]. *)
Lemma wrong_length_chunk_accepted :
  map (fun u => (total_size u, total_chunks u)) (uploads one_byte_sent) = [(10, 1)] /\
  Z.of_nat (length [Byte.x61]) <> 10 - (1 - 1) * CHUNK_SIZE /\
  map cstatus (chunks one_byte_sent) = [PENDING] /\
  upload_dir one_byte_sent !! target_path "u1" = None /\
  fst one_byte_call = ChunkStored true 1 1 /\
  upload_dir (snd one_byte_call) !! target_path "u1" = Some one_byte_file /\
  map cstatus (chunks (snd one_byte_call)) = [RECEIVED].
Proof. vm_compute. repeat split; try reflexivity. discriminate. Qed.

(** C3 fails on the code: on a [COMPLETED] session a call for an index
    without a [RECEIVED] record is not answered "already ...": its payload
    is written into the sealed file. *)
Lemma completed_session_file_rewritten :
  map status (uploads late_sent) = [COMPLETED] /\
  fst late_call = ChunkStored true 1 1 /\
  fst late_call <> ChunkAlreadyUploaded /\
  size <$> upload_dir late_sent !! target_path "u1" = Some 1 /\
  size <$> upload_dir (snd late_call) !! target_path "u1" = Some (CHUNK_SIZE + 1) /\
  read_byte (default empty_file (upload_dir (snd late_call) !! target_path "u1")) CHUNK_SIZE
    = Some Byte.x62.
Proof. vm_compute. repeat split; try reflexivity. discriminate. Qed.

(** C4 fails on the code: a negative [fileSize] is truthy, so the request
    is accepted and a session with no chunk records is created. *)
Lemma negative_size_accepted :
  -5 <= 0 /\
  fst (init 100 (init_of "a.zip" (-5) "u1") empty_world) = InitOk "u1" [] UPLOADING /\
  uploads (snd (init 100 (init_of "a.zip" (-5) "u1") empty_world)) =
    [{| id := "u1"; filename := "a.zip"; total_size := -5; total_chunks := 0;
        status := UPLOADING; final_hash := None;
        created_at := 100; updated_at := 100 |}] /\
  chunks (snd (init 100 (init_of "a.zip" (-5) "u1") empty_world)) = [].
Proof. vm_compute. repeat split; try reflexivity. discriminate. Qed.

(** C10 fails on the code: index 2147483648 has no chunk record, and its
    payload is not written at offset [2147483648 * CHUNK_SIZE], which is no
    safe integer, but over the first byte of the file, where chunk 0 was
    stored; the file stays one byte long. *)
Lemma huge_index_lands_on_first_byte :
  map status (uploads first_stored) = [UPLOADING] /\
  findOne (chunk_matches "u1" (Int 2147483648)) (chunks first_stored) = None /\
  upload_dir first_stored !! target_path "u1" = Some one_byte_file /\
  fst huge_call = ChunkStored false 1 3 /\
  upload_dir (snd huge_call) !! target_path "u1" =
    Some {| data := {[ 0 := Byte.x7a ]}; size := 1 |} /\
  size (pwrite one_byte_file (2147483648 * CHUNK_SIZE) [Byte.x7a]) =
    2147483648 * CHUNK_SIZE + 1 /\
  read_byte (pwrite one_byte_file (2147483648 * CHUNK_SIZE) [Byte.x7a]) 0 =
    Some Byte.x61.
Proof. vm_compute. repeat split; reflexivity. Qed.

(** A negative index and [NaN] pass the handler's only test on the field
    and land on the first byte as well. *)
Example stray_indices_land_on_first_byte :
  upload_dir (snd (send_chunk 300 "t9" "u1" (Int (-1)) "3" [Byte.x7a] first_stored))
    !! target_path "u1" = Some {| data := {[ 0 := Byte.x7a ]}; size := 1 |} /\
  upload_dir (snd (send_chunk 300 "t9" "u1" NaN "3" [Byte.x7a] first_stored))
    !! target_path "u1" = Some {| data := {[ 0 := Byte.x7a ]}; size := 1 |}.
Proof. vm_compute. split; reflexivity. Qed.

(** C5, on the code.  After the sweep of S6 the abandoned session [u2] and
    its target file are gone and the [COMPLETED] session [u3] and its file
    are as before, the file being unlinked before the session record is
    deleted; but the three chunk records of [u2] are still in the store:
    the sweep has no [deleteMany] on [chunks]. *)
Theorem janitor_leaves_chunk_records :
  map (fun u => (id u, status u, created_at u)) (uploads abandoned) =
    [("u3", COMPLETED, 0); ("u2", UPLOADING, 0)] /\
  map id (uploads swept) = ["u3"] /\
  upload_dir swept !! target_path "u2" = None /\
  upload_dir swept !! target_path "u3" = upload_dir abandoned !! target_path "u3" /\
  findOne (has_id "u3") (uploads swept) = findOne (has_id "u3") (uploads abandoned) /\
  map (fun c => (chunk_index c, cstatus c)) (find_all (of_upload "u2") (chunks swept)) =
    [(0%N, RECEIVED); (1%N, RECEIVED); (2%N, PENDING)] /\
  chunks swept = chunks abandoned /\
  drop (length (trace abandoned)) (trace swept) =
    [EvUnlinkTarget (target_path "u2"); EvDeleteUploads ["u2"]].
Proof. vm_compute. repeat split; reflexivity. Qed.

(** What the leftover records do: a new [init] for the swept id inserts the
    session, then hits the unique index on [chunks] and answers 500; the
    next [init] finds that session and reports the chunks of the deleted
    file as uploaded. *)
Example reinit_after_sweep :
  fst (init (26 * HOUR) (init_of "b.zip" (2 * CHUNK_SIZE + 1) "u2") swept) = InitError /\
  fst (init (27 * HOUR) (init_of "b.zip" (2 * CHUNK_SIZE + 1) "u2")
         (snd (init (26 * HOUR) (init_of "b.zip" (2 * CHUNK_SIZE + 1) "u2") swept)))
    = InitOk "u2" [0%N; 1%N] UPLOADING /\
  upload_dir swept !! target_path "u2" = None.
Proof. vm_compute. repeat split; reflexivity. Qed.

(** S5: the disk fails on the write; the record stays [PENDING]. *)
Example failed_write_leaves_pending :
  fst (receive_chunk 200 WriteFails (chunk_of "t1" "u1" (Int 0) "1") one_byte_sent) = ChunkError /\
  map cstatus (chunks (snd (receive_chunk 200 WriteFails (chunk_of "t1" "u1" (Int 0) "1") one_byte_sent)))
    = [PENDING].
Proof. vm_compute. split; reflexivity. Qed.

(** ** The theorems at work on the scenarios *)

Lemma chunk_stored_whatever_length_witness :
  length [Byte.x61] = 1%nat /\
  (exists b rc n, fst one_byte_call = ChunkStored b rc n) /\
  upload_dir (snd one_byte_call) !! target_path "u1" =
    Some (pwrite (default empty_file (upload_dir one_byte_sent !! target_path "u1"))
                 (Z.of_N 0 * CHUNK_SIZE) [Byte.x61]) /\
  findOne (chunk_matches "u1" (Int 0)) (chunks (snd one_byte_call)) =
    Some (set_received 200 (pending_chunk "u1" 0)).
Proof.
  split; [reflexivity|].
  destruct (chunk_stored_whatever_length 200 (chunk_of "t1" "u1" (Int 0) "1")
              one_byte_sent "u1" "t1" "1" (Int 0) (u1_uploading 10 1)
              (pending_chunk "u1" 0) {| tdata := [Byte.x61]; mtime := 150 |}
              eq_refl eq_refl eq_refl eq_refl eq_refl eq_refl eq_refl eq_refl)
    as (Hr & _ & Hf & Hc).
  split; [exact Hr|]. split; [exact Hf|exact Hc].
Defined.

Lemma sealed_session_chunk_call_witness :
  status u1_completed <> UPLOADING /\
  uploads (snd (receive_chunk 300 DiskOk (chunk_of "t3" "u1" (Int 0) "1") repeat_sent)) =
    uploads repeat_sent /\
  fst (receive_chunk 300 DiskOk (chunk_of "t3" "u1" (Int 0) "1") repeat_sent) =
    ChunkAlreadyUploaded /\
  chunks (snd (receive_chunk 300 DiskOk (chunk_of "t3" "u1" (Int 0) "1") repeat_sent)) =
    chunks repeat_sent /\
  upload_dir (snd (receive_chunk 300 DiskOk (chunk_of "t3" "u1" (Int 0) "1") repeat_sent)) =
    upload_dir repeat_sent.
Proof.
  assert (Hst : status u1_completed <> UPLOADING) by discriminate.
  split; [exact Hst|].
  destruct (sealed_session_chunk_call 300 DiskOk (chunk_of "t3" "u1" (Int 0) "1")
              repeat_sent "u1" "1" (Int 0) u1_completed
              eq_refl eq_refl eq_refl eq_refl Hst) as [Hups Hrec].
  split; [exact Hups|].
  apply (Hrec (set_received 200 (pending_chunk "u1" 0))); [reflexivity..|].
  intros p [= <-]. eexists. reflexivity.
Defined.

Lemma init_rejects_missing_fields_witness :
  init 200 {| init_filename := Some "a.zip"; init_fileSize := Some 0;
              init_uploadId := Some "u1" |} three_chunks
  = (InitBadRequest, three_chunks).
Proof.
  apply init_rejects_missing_fields. simpl. right; right; right; left. reflexivity.
Defined.

Lemma init_existing_idempotent_witness :
  findOne (has_id "u2") (uploads abandoned) = Some u2_abandoned /\
  exists uploadedChunks : list N,
    init 30 (init_of "b.zip" (2 * CHUNK_SIZE + 1) "u2") abandoned =
      (InitOk "u2" uploadedChunks (status u2_abandoned), abandoned) /\
    id u2_abandoned = "u2" /\
    (forall i : N,
        i ∈ uploadedChunks <->
        exists c, c ∈ chunks abandoned /\ upload_id c = "u2" /\
                  chunk_index c = i /\ cstatus c = RECEIVED) /\
    (forall now' : Z,
        init now' (init_of "b.zip" (2 * CHUNK_SIZE + 1) "u2")
          (snd (init 30 (init_of "b.zip" (2 * CHUNK_SIZE + 1) "u2") abandoned))
        = init 30 (init_of "b.zip" (2 * CHUNK_SIZE + 1) "u2") abandoned).
Proof.
  split; [reflexivity|].
  apply (init_existing_idempotent 30 (init_of "b.zip" (2 * CHUNK_SIZE + 1) "u2")
           abandoned "b.zip" "u2" (2 * CHUNK_SIZE + 1) u2_abandoned);
    reflexivity.
Defined.

Lemma init_stores_ceiling_chunks_witness :
  0 < 2 * CHUNK_SIZE + 1 /\
  fst (init 100 (init_of "a.zip" (2 * CHUNK_SIZE + 1) "u1") empty_world) =
    InitOk "u1" [] UPLOADING /\
  exists tc : Z,
    uploads three_chunks = [u1_uploading (2 * CHUNK_SIZE + 1) tc] /\
    2 * CHUNK_SIZE + 1 <= tc * CHUNK_SIZE < 2 * CHUNK_SIZE + 1 + CHUNK_SIZE /\
    chunks three_chunks = map (pending_chunk "u1") (seq 0 (Z.to_nat tc)).
Proof.
  assert (Hpos : 0 < 2 * CHUNK_SIZE + 1) by reflexivity.
  split; [exact Hpos|].
  destruct (init_stores_ceiling_chunks 100 (init_of "a.zip" (2 * CHUNK_SIZE + 1) "u1")
              empty_world "a.zip" "u1" (2 * CHUNK_SIZE + 1)
              eq_refl eq_refl Hpos eq_refl eq_refl) as (_ & Hok & Hstored).
  split; [exact (Hok eq_refl)|].
  destruct (Hstored (Hok eq_refl)) as (tc & Hu & Hceil & _ & Hc & _).
  exists tc. split; [exact Hu|]. split; [exact Hceil|exact Hc].
Defined.

Lemma totalChunks_field_unused_witness :
  receive_chunk 200 DiskOk (with_totalChunks (chunk_of "t1" "u1" (Int 0) "1") (Some "1"))
    one_byte_sent =
  receive_chunk 200 DiskOk (with_totalChunks (chunk_of "t1" "u1" (Int 0) "1") (Some "999"))
    one_byte_sent.
Proof.
  apply (totalChunks_field_unused 200 DiskOk (chunk_of "t1" "u1" (Int 0) "1")
           one_byte_sent "1" "999"); discriminate.
Defined.

Lemma unknown_index_written_not_recorded_witness :
  findOne (chunk_matches "u1" (Int 7)) (chunks stray_sent) = None /\
  fst (receive_chunk 200 DiskOk (chunk_of "t9" "u1" (Int 7) "3") stray_sent) =
    ChunkStored false 0 3 /\
  upload_dir (snd (receive_chunk 200 DiskOk (chunk_of "t9" "u1" (Int 7) "3") stray_sent))
    !! target_path "u1" =
    Some (pwrite empty_file (7 * CHUNK_SIZE) [Byte.x7a]) /\
  read_byte (pwrite empty_file (7 * CHUNK_SIZE) [Byte.x7a]) (7 * CHUNK_SIZE + 0) =
    Some Byte.x7a /\
  chunks (snd (receive_chunk 200 DiskOk (chunk_of "t9" "u1" (Int 7) "3") stray_sent)) =
    chunks stray_sent.
Proof.
  split; [reflexivity|].
  destruct (unknown_index_written_not_recorded 200 (chunk_of "t9" "u1" (Int 7) "3")
              stray_sent "u1" "t9" "3" (Int 7) (u1_uploading (2 * CHUNK_SIZE + 1) 3)
              {| tdata := [Byte.x7a]; mtime := 150 |}
              eq_refl eq_refl eq_refl eq_refl eq_refl eq_refl eq_refl)
    as (Hr & Hf & Hread & Hc & _).
  split; [exact Hr|]. split; [exact Hf|].
  split; [exact (Hread _ 0%nat Byte.x7a Hf eq_refl)|exact Hc].
Defined.

(** * Further properties *)

Lemma chunk_size_pos : 0 < CHUNK_SIZE.
Proof. reflexivity. Qed.

Lemma client_chunk_size : Client.CHUNK_SIZE = CHUNK_SIZE.
Proof. reflexivity. Qed.

Lemma client_totalChunks (n : Z) : Client.totalChunks n = totalChunks_of n.
Proof. reflexivity. Qed.

(** ** The client's blobs *)

Lemma chunk_blob_length (content : list Byte.byte) (i : N) :
  Z.of_N i * CHUNK_SIZE <= Z.of_nat (length content) ->
  Z.of_nat (length (Client.chunk_blob content i)) =
    Z.min ((Z.of_N i + 1) * CHUNK_SIZE) (Z.of_nat (length content))
    - Z.of_N i * CHUNK_SIZE.
Proof.
  intros Hs. unfold Client.chunk_blob, Client.slice.
  rewrite client_chunk_size. pose proof chunk_size_pos.
  rewrite length_take, length_drop. lia.
Qed.


(** An index below the chunk count starts inside the file. *)
Lemma chunk_starts_inside (L : Z) (i : N) :
  Z.of_N i < totalChunks_of L -> Z.of_N i * CHUNK_SIZE < L.
Proof.
  pose proof (totalChunks_of_ceiling L). pose proof chunk_size_pos. nia.
Qed.






(** X2. The blobs the client cuts have the lengths the layout asks for:
    [CHUNK_SIZE] for every index but the last, and for the last what is
    left of the file, which is at least one byte. *)
Theorem chunk_blob_expected_length (content : list Byte.byte) (i : N) :
  Z.of_N i < Client.totalChunks (Z.of_nat (length content)) ->
  Z.of_nat (length (Client.chunk_blob content i)) =
    (if decide (Z.of_N i = Client.totalChunks (Z.of_nat (length content)) - 1)
     then Z.of_nat (length content)
          - (Client.totalChunks (Z.of_nat (length content)) - 1) * Client.CHUNK_SIZE
     else Client.CHUNK_SIZE) /\
  0 < Z.of_nat (length (Client.chunk_blob content i)) <= Client.CHUNK_SIZE.
Proof.
  rewrite client_totalChunks, client_chunk_size. intros Hi.
  pose proof (chunk_starts_inside _ _ Hi) as Hstart.
  pose proof (totalChunks_of_ceiling (Z.of_nat (length content))) as Hceil.
  pose proof chunk_size_pos as Hcs.
  rewrite chunk_blob_length by lia.
  case_decide as Hlast; split; nia.
Qed.

(** ** Collections *)


Lemma find_find_all {A} (q q' : A -> bool) (l : list A) :
  (forall x, q' x = true -> q x = true) ->
  List.find q' (find_all q l) = List.find q' l.
Proof.
  intros Himp. induction l as [|x l IH]; [done|]. simpl.
  destruct (q x) eqn:E; simpl.
  - by rewrite IH.
  - destruct (q' x) eqn:E'; [|done]. rewrite (Himp _ E') in E. done.
Qed.

Lemma map_updateOne {A B} (g : A -> B) (q : A -> bool) (upd : A -> A) (l : list A) :
  (forall x, g (upd x) = g x) ->
  map g (updateOne q upd l) = map g l.
Proof.
  intros Hg. induction l as [|x l IH]; [done|]. simpl.
  destruct (q x); simpl; by rewrite ?Hg, ?IH.
Qed.

Lemma length_updateOne {A} (q : A -> bool) (upd : A -> A) (l : list A) :
  length (updateOne q upd l) = length l.
Proof.
  induction l as [|x l IH]; [done|]. simpl. destruct (q x); simpl; by rewrite ?IH.
Qed.


Lemma filter_all_length {A} (p : A -> bool) (l : list A) :
  length (List.filter p l) = length l <-> forall x, x ∈ l -> p x = true.
Proof.
  induction l as [|x l IH]; simpl.
  - split; [|done]. intros _ x H. by apply elem_of_nil in H.
  - pose proof (filter_length_le p l) as Hle. destruct (p x) eqn:E; simpl.
    + split.
      * intros H. assert (Hl : length (List.filter p l) = length l) by lia.
        intros y Hy. apply elem_of_cons in Hy as [->|Hy]; [done|].
        by apply IH.
      * intros H. f_equal. apply IH. intros y Hy. apply H. by right.
    + split; [lia|]. intros H. rewrite H in E; [done|left].
Qed.

(** ** What [finalizeUpload] leaves behind *)

Lemma finalizeUpload_completes (now : Z) (uid : string) (w : world)
    (u : upload_doc) (f : file) :
  findOne (has_id uid) (uploads w) = Some u ->
  status u = UPLOADING ->
  upload_dir w !! target_path uid = Some f ->
  finalizeUpload now uid w = (Ok FinDone, completed_world now uid f w).
Proof.
  intros Hu Hst Hf. unfold finalizeUpload. simpl. run. rewrite Hu.
  destruct (decide (status u = UPLOADING)); [|done].
  simpl. unfold update_upload. run. rewrite Hf. simpl.
  unfold update_upload. run.
  unfold completed_world. by rewrite <- app_assoc.
Qed.

Lemma finalizeUpload_fails (now : Z) (uid : string) (w : world) (u : upload_doc) :
  findOne (has_id uid) (uploads w) = Some u ->
  status u = UPLOADING ->
  upload_dir w !! target_path uid = None ->
  finalizeUpload now uid w = (Ok FinDone, failed_world now uid w).
Proof.
  intros Hu Hst Hf. unfold finalizeUpload. simpl. run. rewrite Hu.
  destruct (decide (status u = UPLOADING)); [|done].
  simpl. unfold update_upload. run. rewrite Hf. simpl.
  unfold update_upload. run.
  unfold failed_world. by rewrite <- app_assoc.
Qed.

Lemma has_id_set_status (uid : string) (st : upload_status) (now : Z) (u : upload_doc) :
  has_id uid u = true -> has_id uid (set_status st now u) = true.
Proof. done. Qed.

Lemma has_id_set_completed (uid : string) (h : digest) (now : Z) (u : upload_doc) :
  has_id uid u = true -> has_id uid (set_completed h now u) = true.
Proof. done. Qed.

Lemma findOne_completed_world (now : Z) (uid : string) (f : file) (w : world)
    (u : upload_doc) :
  findOne (has_id uid) (uploads w) = Some u ->
  findOne (has_id uid) (uploads (completed_world now uid f w)) =
    Some (set_completed (SHA256 f) now (set_status PROCESSING now u)).
Proof.
  intros Hu. unfold findOne in *. simpl.
  apply find_updateOne; [intros y; apply has_id_set_completed|].
  apply find_updateOne; [intros y; apply has_id_set_status|done].
Qed.

(** X3. A call of [finalizeUpload], run to its end, on a session that is
    [UPLOADING]: with the target file in place the session ends [COMPLETED]
    with [final_hash] the digest of that file; with the file missing it
    ends [FAILED] and [final_hash] is left as it was.  The other fields of
    the session but [updated_at], the chunk records and the files are
    untouched. *)
Theorem finalizeUpload_outcome (now : Z) (uid : string) (w : world) (u : upload_doc) :
  findOne (has_id uid) (uploads w) = Some u ->
  status u = UPLOADING ->
  findOne (has_id uid) (uploads (snd (finalizeUpload now uid w))) =
    Some (match upload_dir w !! target_path uid with
          | Some f =>
              {| id := id u; filename := filename u; total_size := total_size u;
                 total_chunks := total_chunks u; status := COMPLETED;
                 final_hash := Some (SHA256 f); created_at := created_at u;
                 updated_at := now |}
          | None =>
              {| id := id u; filename := filename u; total_size := total_size u;
                 total_chunks := total_chunks u; status := FAILED;
                 final_hash := final_hash u; created_at := created_at u;
                 updated_at := now |}
          end) /\
  chunks (snd (finalizeUpload now uid w)) = chunks w /\
  upload_dir (snd (finalizeUpload now uid w)) = upload_dir w.
Proof.
  intros Hu Hst. destruct (upload_dir w !! target_path uid) as [f|] eqn:Hf.
  - rewrite (finalizeUpload_completes now uid w u f) by done.
    split; [|done]. cbn [snd]. by rewrite (findOne_completed_world now uid f w u).
  - rewrite (finalizeUpload_fails now uid w u) by done.
    split; [|done]. cbn [snd]. unfold findOne in *. simpl.
    rewrite (find_updateOne _ _ _ (set_status PROCESSING now u));
      [done|intros y; apply has_id_set_status|].
    apply find_updateOne; [intros y; apply has_id_set_status|done].
Qed.

(** ** The short paths of [receive_chunk] *)

Lemma receive_chunk_already (now : Z) (disk : disk_outcome) (req : chunk_req)
    (w : world) (uid tc p : string) (idx : number) (u : upload_doc) (c : chunk_doc)
    (t : temp_file) :
  truthy_string (chunk_uploadId req) = Some uid ->
  chunk_chunkIndex req = Some idx ->
  truthy_string (chunk_totalChunks req) = Some tc ->
  findOne (has_id uid) (uploads w) = Some u ->
  findOne (chunk_matches uid idx) (chunks w) = Some c ->
  cstatus c = RECEIVED ->
  chunk_file req = Some p ->
  temp_dir w !! p = Some t ->
  receive_chunk now disk req w =
    (ChunkAlreadyUploaded,
     {| uploads := uploads w; chunks := chunks w; upload_dir := upload_dir w;
        temp_dir := delete p (temp_dir w);
        trace := trace w ++ [EvUnlinkTemp p] |}).
Proof.
  intros Hu Hi Ht Hup Hc Hrec Hp Htemp.
  unfold receive_chunk, chunk_body. rewrite Hu, Hi, Ht, Hp. run.
  rewrite Hup, Hc. simpl. unfold is_received. rewrite Hrec. simpl.
  unfold unlink_if_set, unlink_temp. run. by rewrite Htemp.
Qed.

(** X4. A call for an upload id that has no session answers 404; it
    removes its own scratch file and changes nothing else: no session, no
    chunk record and no target file is created or touched. *)
Theorem unknown_upload_not_found (now : Z) (disk : disk_outcome) (req : chunk_req)
    (w : world) (uid tc p : string) (idx : number) (t : temp_file) :
  truthy_string (chunk_uploadId req) = Some uid ->
  chunk_chunkIndex req = Some idx ->
  truthy_string (chunk_totalChunks req) = Some tc ->
  findOne (has_id uid) (uploads w) = None ->
  chunk_file req = Some p ->
  temp_dir w !! p = Some t ->
  receive_chunk now disk req w =
    (ChunkNotFound,
     {| uploads := uploads w; chunks := chunks w; upload_dir := upload_dir w;
        temp_dir := delete p (temp_dir w);
        trace := trace w ++ [EvUnlinkTemp p] |}).
Proof.
  intros Hu Hi Ht Hup Hp Htemp.
  unfold receive_chunk, chunk_body. rewrite Hu, Hi, Ht, Hp. run.
  rewrite Hup. unfold unlink_if_set, unlink_temp. run. by rewrite Htemp.
Qed.

(** X5. A call in which [uploadId] is missing or empty, [chunkIndex] is
    missing, or [totalChunks] is missing or empty answers 400, whatever the
    store holds; the collections and the target files are untouched. *)
Theorem chunk_rejects_missing_fields (now : Z) (disk : disk_outcome)
    (req : chunk_req) (w : world) :
  chunk_uploadId req = None \/ chunk_uploadId req = Some "" \/
  chunk_chunkIndex req = None \/
  chunk_totalChunks req = None \/ chunk_totalChunks req = Some "" ->
  (fst (receive_chunk now disk req w) = ChunkBadRequest \/
   (fst (receive_chunk now disk req w) = ChunkError /\
    exists p, chunk_file req = Some p /\ temp_dir w !! p = None)) /\
  uploads (snd (receive_chunk now disk req w)) = uploads w /\
  chunks (snd (receive_chunk now disk req w)) = chunks w /\
  upload_dir (snd (receive_chunk now disk req w)) = upload_dir w.
Proof.
  intros H.
  assert (Hbody : chunk_body now disk req =
                  (unlink_if_set (chunk_file req);;; ret ChunkBadRequest)).
  { unfold chunk_body.
    destruct H as [H|[H|[H|[H|H]]]]; rewrite H; simpl; repeat case_match; done. }
  unfold receive_chunk. rewrite Hbody.
  unfold chunk_catch, unlink_if_set, unlink_temp. run.
  destruct (chunk_file req) as [p|]; simpl; [|by split; [left|]].
  destruct (temp_dir w !! p) eqn:E; simpl.
  - by split; [left|].
  - rewrite E. simpl. split; [|done]. right. split; [done|]. by exists p.
Qed.

(** ** A whole upload *)
















(** ** Resuming *)





(** ** What the chunk handler never does *)

Lemma fin_step_static (now : Z) (uid : string) (pc pc' : fin_pc) (w w' : world) :
  fin_step now uid pc w = (Ok pc', w') ->
  map static_fields (uploads w') = map static_fields (uploads w).
Proof.
  destruct pc; simpl; unfold update_upload; run;
    repeat case_match; intros [= <- <-]; simpl; try done;
    by apply map_updateOne.
Qed.

Lemma fin_run_static (fuel : nat) (now : Z) (uid : string) (pc pc' : fin_pc)
    (w w' : world) :
  fin_run fuel now uid pc w = (Ok pc', w') ->
  map static_fields (uploads w') = map static_fields (uploads w).
Proof.
  revert pc w. induction fuel as [|fuel IH]; intros pc w.
  - simpl. run. by intros [= _ <-].
  - destruct (is_done pc) eqn:Hpc.
    + destruct pc; try done. simpl. run. by intros [= _ <-].
    + rewrite fin_run_S by (by intros ->).
      destruct (fin_step now uid pc w) as [[pc1|] w1] eqn:Hs; [|done].
      intros Hr. rewrite (IH _ _ Hr). by eapply fin_step_static.
Qed.

Lemma after_store_static (now : Z) (uid : string) (w1 : world) (b : bool) :
  map static_fields (uploads (if b then snd (finalizeUpload now uid w1) else w1)) =
  map static_fields (uploads w1).
Proof.
  destruct b; [|done].
  destruct (finalizeUpload_ok now uid w1) as (w2 & Hr & _).
  rewrite Hr. simpl. by eapply (fin_run_static 5 now uid FinFind).
Qed.

(** X8. [receive_chunk] never creates, deletes or reorders a session, and
    never changes the id, the file name, the declared size, the chunk count
    or the creation time of one, whatever the request and whatever the
    disk does; nor does it ever add or remove a chunk record or change the
    key of one. *)
Theorem chunk_call_keeps_sessions (now : Z) (disk : disk_outcome)
    (req : chunk_req) (w : world) :
  map static_fields (uploads (snd (receive_chunk now disk req w))) =
    map static_fields (uploads w) /\
  map chunk_key (chunks (snd (receive_chunk now disk req w))) =
    map chunk_key (chunks w).
Proof.
  destruct (receive_chunk_cases now disk req w)
    as [(Hc & Hu & _) | (uid & p & idx & t & Hpath)].
  - by rewrite Hc, Hu.
  - destruct Hpath as (-> & Hu & Hi & [tc Ht] & [u Hup] & Hnr & Hp & Htemp).
    rewrite (receive_chunk_stored now req w uid p tc idx u t) by done.
    cbn [snd]. split.
    + by rewrite after_store_static.
    + destruct (chunks_after_store now uid (stored_world now uid idx p (tdata t) w)
                  (bool_decide (receivedCount uid (stored_world now uid idx p (tdata t) w) =
                                totalCount uid (stored_world now uid idx p (tdata t) w))))
        as [-> _].
      simpl. by apply map_updateOne.
Qed.

Lemma temp_after_store (now : Z) (uid : string) (w1 : world) (b : bool) :
  temp_dir (if b then snd (finalizeUpload now uid w1) else w1) = temp_dir w1.
Proof.
  destruct b; [|done].
  destruct (finalizeUpload_ok now uid w1) as (w2 & -> & _ & _ & Ht & _). done.
Qed.

Ltac scratch_path :=
  unfold chunk_catch, unlink_if_set, unlink_path, unlink_temp, readFile,
    write_chunk; run;
  repeat (case_match; simplify_eq; run);
  try done; try (symmetry; by apply delete_id).

(** X9. Every call of [receive_chunk], on every path and whatever the disk
    does, leaves the scratch directory without the file of its own part and
    with every other scratch file as it was. *)
Theorem scratch_file_always_removed (now : Z) (disk : disk_outcome)
    (req : chunk_req) (w : world) :
  temp_dir (snd (receive_chunk now disk req w)) =
    match chunk_file req with
    | Some p => delete p (temp_dir w)
    | None => temp_dir w
    end.
Proof.
  destruct disk.
  - (* the disk works: the store path is the one of [receive_chunk_stored] *)
    destruct (truthy_string (chunk_uploadId req)) as [uid|] eqn:Hu;
      [|unfold receive_chunk, chunk_body; rewrite Hu; scratch_path].
    destruct (chunk_chunkIndex req) as [idx|] eqn:Hi;
      [|unfold receive_chunk, chunk_body; rewrite Hu, Hi; scratch_path].
    destruct (truthy_string (chunk_totalChunks req)) as [tc|] eqn:Ht;
      [|unfold receive_chunk, chunk_body; rewrite Hu, Hi, Ht; scratch_path].
    destruct (findOne (has_id uid) (uploads w)) as [u|] eqn:Hup;
      [|unfold receive_chunk, chunk_body; rewrite Hu, Hi, Ht; run; rewrite Hup;
        scratch_path].
    destruct (already_received (findOne (chunk_matches uid idx) (chunks w))) eqn:Hnr;
      [unfold receive_chunk, chunk_body; rewrite Hu, Hi, Ht; run; rewrite Hup, Hnr;
       scratch_path|].
    destruct (chunk_file req) as [p|] eqn:Hp;
      [|unfold receive_chunk, chunk_body; rewrite Hu, Hi, Ht, Hp; run;
        rewrite Hup, Hnr; scratch_path].
    destruct (temp_dir w !! p) as [t|] eqn:Htemp;
      [|unfold receive_chunk, chunk_body; rewrite Hu, Hi, Ht, Hp; run;
        rewrite Hup, Hnr; unfold readFile; run; rewrite Htemp; scratch_path].
    rewrite (receive_chunk_stored now req w uid p tc idx u t) by done.
    cbn [snd]. by rewrite temp_after_store.
  - unfold receive_chunk, chunk_body. scratch_path.
  - unfold receive_chunk, chunk_body. scratch_path.
Qed.

(** X10. A session without chunk records (one created for a negative
    size) counts as complete at once: the first call that stores a payload
    for it, whatever number its chunk index is, answers [isComplete] with
    zero of zero chunks received, and the session goes from [UPLOADING] to
    [COMPLETED] with the digest of the target file as that one write leaves
    it, the payload lying at [chunk_index * CHUNK_SIZE] for an index from 0
    to 1717986918 and at the start of the file for any other. *)
Theorem session_without_chunks_completes (now : Z) (req : chunk_req) (w : world)
    (uid p tc : string) (idx : number) (u : upload_doc) (t : temp_file) :
  truthy_string (chunk_uploadId req) = Some uid ->
  chunk_chunkIndex req = Some idx ->
  truthy_string (chunk_totalChunks req) = Some tc ->
  findOne (has_id uid) (uploads w) = Some u ->
  status u = UPLOADING ->
  find_all (of_upload uid) (chunks w) = [] ->
  chunk_file req = Some p ->
  temp_dir w !! p = Some t ->
  fst (receive_chunk now DiskOk req w) = ChunkStored true 0 0 /\
  upload_dir (snd (receive_chunk now DiskOk req w)) !! target_path uid =
    Some (pwrite (default empty_file (upload_dir w !! target_path uid))
                 match idx with
                 | Int z => if decide (0 <= z < 1717986919)
                            then z * CHUNK_SIZE else 0
                 | _ => 0
                 end
                 (tdata t)) /\
  findOne (has_id uid) (uploads (snd (receive_chunk now DiskOk req w))) =
    Some {| id := id u; filename := filename u; total_size := total_size u;
            total_chunks := total_chunks u; status := COMPLETED;
            final_hash :=
              SHA256 <$>
                upload_dir (snd (receive_chunk now DiskOk req w)) !! target_path uid;
            created_at := created_at u; updated_at := now |}.
Proof.
  intros Hu Hi Ht Hup Hst Hnone Hp Htemp.
  assert (Hfind : findOne (chunk_matches uid idx) (chunks w) = None).
  { unfold findOne.
    rewrite <- (find_find_all (of_upload uid)), Hnone; [done|].
    intros x Hx. unfold chunk_matches in Hx. by apply andb_prop in Hx as [Hx _]. }
  assert (Hnr : already_received (findOne (chunk_matches uid idx) (chunks w)) = false)
    by (by rewrite Hfind).
  rewrite (receive_chunk_stored now req w uid p tc idx u t) by done.
  set (w1 := stored_world now uid idx p (tdata t) w).
  assert (Hc1 : chunks w1 = chunks w) by (simpl; by apply updateOne_no_match).
  unfold receivedCount, totalCount. rewrite Hc1, Hnone. simpl.
  split; [done|].
  rewrite (finalizeUpload_completes now uid w1 u
             (pwrite (default empty_file (upload_dir w !! target_path uid))
                     (write_position (offset_of idx)) (tdata t)));
    [|done|done|apply lookup_insert_eq].
  cbn [snd]. rewrite (findOne_completed_world now uid _ w1 u) by done.
  change (upload_dir (completed_world now uid _ w1)) with (upload_dir w1).
  unfold w1, stored_world. cbn [upload_dir]. rewrite lookup_insert_eq.
  by rewrite write_position_offset.
Qed.

Lemma find_is_some_static (uid : string) (l l' : list upload_doc) :
  map static_fields l' = map static_fields l ->
  is_Some (List.find (has_id uid) l) -> is_Some (List.find (has_id uid) l').
Proof.
  revert l'. induction l as [|x l IH]; intros [|x' l'] Hmap; try done.
  simpl in Hmap. injection Hmap as Hx Hl.
  simpl. unfold has_id at 1 3.
  assert (id x' = id x) as -> by (unfold static_fields in Hx; congruence).
  destruct (bool_decide (id x = uid)); [by eauto|]. by apply IH.
Qed.

(** X11. Once a call has stored the chunk of an index that has a record,
    a later call for that index is answered "Chunk already uploaded" and its
    payload is dropped without being compared with what was stored, be it
    the same bytes or others: the target file and both collections stay as
    the first call left them. *)
Theorem second_payload_discarded (now now' : Z) (disk : disk_outcome)
    (req req' : chunk_req) (w : world) (uid p p' tc tc' : string) (idx : number)
    (u : upload_doc) (c : chunk_doc) (t t' : temp_file) :
  truthy_string (chunk_uploadId req) = Some uid ->
  chunk_chunkIndex req = Some idx ->
  truthy_string (chunk_totalChunks req) = Some tc ->
  findOne (has_id uid) (uploads w) = Some u ->
  findOne (chunk_matches uid idx) (chunks w) = Some c ->
  cstatus c = PENDING ->
  chunk_file req = Some p ->
  temp_dir w !! p = Some t ->
  truthy_string (chunk_uploadId req') = Some uid ->
  chunk_chunkIndex req' = Some idx ->
  truthy_string (chunk_totalChunks req') = Some tc' ->
  chunk_file req' = Some p' ->
  fst (receive_chunk now' disk req'
         (spool p' (tdata t') (mtime t') (snd (receive_chunk now DiskOk req w)))) =
    ChunkAlreadyUploaded /\
  upload_dir (snd (receive_chunk now' disk req'
         (spool p' (tdata t') (mtime t') (snd (receive_chunk now DiskOk req w))))) =
    upload_dir (snd (receive_chunk now DiskOk req w)) /\
  uploads (snd (receive_chunk now' disk req'
         (spool p' (tdata t') (mtime t') (snd (receive_chunk now DiskOk req w))))) =
    uploads (snd (receive_chunk now DiskOk req w)) /\
  chunks (snd (receive_chunk now' disk req'
         (spool p' (tdata t') (mtime t') (snd (receive_chunk now DiskOk req w))))) =
    chunks (snd (receive_chunk now DiskOk req w)).
Proof.
  intros Hu Hi Ht Hup Hc Hpend Hp Htemp Hu' Hi' Ht' Hp'.
  assert (Hnr : already_received (findOne (chunk_matches uid idx) (chunks w)) = false).
  { rewrite Hc. simpl. unfold is_received. rewrite Hpend. done. }
  pose proof (receive_chunk_stored now req w uid p tc idx u t
                Hu Hi Ht Hup Hnr Hp Htemp) as Heq. cbv zeta in Heq.
  set (w1 := stored_world now uid idx p (tdata t) w) in *.
  set (b := bool_decide _) in *.
  set (wa := snd (receive_chunk now DiskOk req w)).
  assert (Hwa : wa = if b then snd (finalizeUpload now uid w1) else w1)
    by (unfold wa; by rewrite Heq).
  destruct (chunks_after_store now uid w1 b) as [Hcs _].
  assert (Hrec : findOne (chunk_matches uid idx) (chunks wa) = Some (set_received now c)).
  { rewrite Hwa, Hcs. simpl. unfold findOne in *. apply find_updateOne; [|done].
    intros y. apply set_received_matches. }
  assert (Hsess : is_Some (findOne (has_id uid) (uploads wa))).
  { unfold findOne. eapply find_is_some_static.
    - rewrite Hwa. apply after_store_static.
    - simpl. unfold findOne in Hup. rewrite Hup. eauto. }
  destruct Hsess as [u' Hu''].
  set (ws := spool p' (tdata t') (mtime t') wa).
  rewrite (receive_chunk_already now' disk req' ws uid tc' p' idx u'
             (set_received now c) {| tdata := tdata t'; mtime := mtime t' |});
    try done.
  apply lookup_insert_eq.
Qed.

(** ** Two chunks in either order *)

Lemma find_updateOne_other {A} (q q' : A -> bool) (upd : A -> A) (l : list A) :
  (forall x, q' x = true -> q x = false) ->
  (forall x, q (upd x) = q x) ->
  List.find q (updateOne q' upd l) = List.find q l.
Proof.
  intros Hdis Hupd. induction l as [|x l IH]; [done|]. simpl.
  destruct (q' x) eqn:E'; simpl.
  - by rewrite Hupd, (Hdis _ E').
  - destruct (q x); [done|]. exact IH.
Qed.

Lemma updateOne_comm {A} (q q' : A -> bool) (upd upd' : A -> A) (l : list A) :
  (forall x, q x = true -> q' x = false) ->
  (forall x, q (upd' x) = q x) ->
  (forall x, q' (upd x) = q' x) ->
  updateOne q upd (updateOne q' upd' l) = updateOne q' upd' (updateOne q upd l).
Proof.
  intros Hdis H1 H2. induction l as [|x l IH]; [done|]. simpl.
  destruct (q x) eqn:E.
  - rewrite (Hdis _ E). simpl. by rewrite E, H2, (Hdis _ E).
  - destruct (q' x) eqn:E'; simpl; rewrite ?H1, ?E, ?E'; simpl; by rewrite ?IH.
Qed.

Lemma chunk_matches_other (uid : string) (idx idx' : number) (c : chunk_doc) :
  idx <> idx' -> chunk_matches uid idx c = true -> chunk_matches uid idx' c = false.
Proof.
  intros Hne H. destruct (chunk_matches uid idx' c) eqn:E; [|done].
  apply chunk_matches_index in H as [_ ->].
  apply chunk_matches_index in E as [_ ->]. done.
Qed.

Lemma find_static_none (uid : string) (l l' : list upload_doc) :
  map static_fields l' = map static_fields l ->
  List.find (has_id uid) l = None -> List.find (has_id uid) l' = None.
Proof.
  revert l'. induction l as [|x l IH]; intros [|x' l'] Hmap; try done.
  simpl in Hmap. injection Hmap as Hx Hl.
  simpl. unfold has_id at 1 3.
  assert (id x' = id x) as -> by (unfold static_fields in Hx; congruence).
  destruct (bool_decide (id x = uid)); [done|]. by apply IH.
Qed.

(** What one call does to the files and to the chunk records. *)
Lemma send_chunk_stores (now : Z) (p uid tc : string) (idx : number)
    (payload : list Byte.byte) (w : world) :
  map static_fields (uploads (snd (send_chunk now p uid idx tc payload w))) =
    map static_fields (uploads w) /\
  upload_dir (snd (send_chunk now p uid idx tc payload w)) =
    (if reaches_write uid tc idx w
     then <[target_path uid :=
              pwrite (default empty_file (upload_dir w !! target_path uid))
                     (write_position (offset_of idx)) payload]> (upload_dir w)
     else upload_dir w) /\
  chunks (snd (send_chunk now p uid idx tc payload w)) =
    (if reaches_write uid tc idx w
     then updateOne (chunk_matches uid idx) (set_received now) (chunks w)
     else chunks w).
Proof.
  unfold send_chunk, reaches_write.
  set (w' := spool p payload now w).
  assert (Htemp : temp_dir w' !! p = Some {| tdata := payload; mtime := now |})
    by apply lookup_insert_eq.
  destruct (truthy_string (Some uid)) as [uid'|] eqn:Hu.
  2:{ unfold receive_chunk, chunk_body. cbn [chunk_of chunk_uploadId chunk_file].
      rewrite Hu. unfold unlink_if_set, unlink_temp. run. by rewrite lookup_insert_eq. }
  assert (uid' = uid) as -> by (simpl in Hu; by case_decide; simplify_eq).
  destruct (truthy_string (Some tc)) as [tc'|] eqn:Ht.
  2:{ unfold receive_chunk, chunk_body.
      cbn [chunk_of chunk_uploadId chunk_file chunk_chunkIndex chunk_totalChunks].
      rewrite Hu, Ht. unfold unlink_if_set, unlink_temp. run.
      by rewrite lookup_insert_eq. }
  destruct (findOne (has_id uid) (uploads w)) as [u|] eqn:Hup.
  2:{ unfold receive_chunk, chunk_body.
      cbn [chunk_of chunk_uploadId chunk_file chunk_chunkIndex chunk_totalChunks].
      rewrite Hu, Ht. run. rewrite Hup. unfold unlink_if_set, unlink_temp. run.
      by rewrite lookup_insert_eq. }
  destruct (already_received (findOne (chunk_matches uid idx) (chunks w))) eqn:Hnr.
  - destruct (findOne (chunk_matches uid idx) (chunks w)) as [c|] eqn:Hc; [|done].
    simpl in Hnr. apply bool_decide_eq_true in Hnr.
    rewrite (receive_chunk_already now DiskOk (chunk_of p uid idx tc) w'
               uid tc' p idx u c _ Hu eq_refl Ht Hup Hc Hnr eq_refl Htemp). done.
  - rewrite (receive_chunk_stored now (chunk_of p uid idx tc) w' uid p tc' idx u _
               Hu eq_refl Ht Hup Hnr eq_refl Htemp).
    cbn [snd tdata negb].
    set (w1 := stored_world now uid idx p payload w').
    destruct (chunks_after_store now uid w1
                (bool_decide (receivedCount uid w1 = totalCount uid w1))) as [-> ->].
    split; [by rewrite after_store_static|done].
Qed.

Lemma reaches_write_kept (uid tc : string) (idx : number) (w w' : world) :
  map static_fields (uploads w') = map static_fields (uploads w) ->
  already_received (findOne (chunk_matches uid idx) (chunks w')) =
    already_received (findOne (chunk_matches uid idx) (chunks w)) ->
  reaches_write uid tc idx w' = reaches_write uid tc idx w.
Proof.
  intros Hs Hr. unfold reaches_write. rewrite Hr.
  destruct (truthy_string (Some uid)); [|done].
  destruct (truthy_string (Some tc)); [|done].
  unfold findOne.
  destruct (List.find (has_id uid) (uploads w)) as [u|] eqn:E.
  - destruct (find_is_some_static uid _ _ Hs) as [u' ->]; [by rewrite E|done].
  - by rewrite (find_static_none uid _ _ Hs E).
Qed.

Lemma reaches_write_after (now : Z) (p uid tc tc' : string) (idx idx' : number)
    (payload : list Byte.byte) (w : world) :
  idx <> idx' ->
  reaches_write uid tc' idx' (snd (send_chunk now p uid idx tc payload w)) =
    reaches_write uid tc' idx' w.
Proof.
  intros Hne.
  destruct (send_chunk_stores now p uid tc idx payload w) as (Hs & _ & Hc).
  apply reaches_write_kept; [done|]. rewrite Hc.
  destruct (reaches_write uid tc idx w); [|done].
  unfold findOne. rewrite find_updateOne_other; [done| |done].
  intros x Hx. by apply (chunk_matches_other uid idx idx').
Qed.

(** X1. Two calls for different chunks of an upload, one after the other in
    either order, leave the same target files and the same chunk records,
    when both indices are integers from 0 to 1717986918 and neither payload
    is longer than [CHUNK_SIZE]: each call writes inside its own range of
    the file, and marks its own record. *)
Theorem chunk_writes_commute (now1 now2 : Z) (w : world)
    (uid p1 p2 tc1 tc2 : string) (i j : Z) (b1 b2 : list Byte.byte) :
  i <> j ->
  0 <= i < 1717986919 -> 0 <= j < 1717986919 ->
  Z.of_nat (length b1) <= CHUNK_SIZE ->
  Z.of_nat (length b2) <= CHUNK_SIZE ->
  upload_dir (snd (send_chunk now2 p2 uid (Int j) tc2 b2
                     (snd (send_chunk now1 p1 uid (Int i) tc1 b1 w)))) =
  upload_dir (snd (send_chunk now1 p1 uid (Int i) tc1 b1
                     (snd (send_chunk now2 p2 uid (Int j) tc2 b2 w)))) /\
  chunks (snd (send_chunk now2 p2 uid (Int j) tc2 b2
                 (snd (send_chunk now1 p1 uid (Int i) tc1 b1 w)))) =
  chunks (snd (send_chunk now1 p1 uid (Int i) tc1 b1
                 (snd (send_chunk now2 p2 uid (Int j) tc2 b2 w)))).
Proof.
  intros Hij Hi Hj Hb1 Hb2.
  assert (Hne : Int i <> Int j) by congruence.
  assert (Hne' : Int j <> Int i) by congruence.
  destruct (send_chunk_stores now1 p1 uid tc1 (Int i) b1 w) as (_ & Hd1 & Hc1).
  destruct (send_chunk_stores now2 p2 uid tc2 (Int j) b2 w) as (_ & Hd2 & Hc2).
  destruct (send_chunk_stores now2 p2 uid tc2 (Int j) b2
              (snd (send_chunk now1 p1 uid (Int i) tc1 b1 w))) as (_ & Hd12 & Hc12).
  destruct (send_chunk_stores now1 p1 uid tc1 (Int i) b1
              (snd (send_chunk now2 p2 uid (Int j) tc2 b2 w))) as (_ & Hd21 & Hc21).
  rewrite (reaches_write_after now1 p1 uid tc1 tc2 (Int i) (Int j) b1 w Hne)
    in Hd12, Hc12.
  rewrite (reaches_write_after now2 p2 uid tc2 tc1 (Int j) (Int i) b2 w Hne')
    in Hd21, Hc21.
  rewrite Hd1 in Hd12. rewrite Hc1 in Hc12. rewrite Hd2 in Hd21. rewrite Hc2 in Hc21.
  rewrite Hd12, Hc12, Hd21, Hc21. clear Hd1 Hc1 Hd2 Hc2 Hd12 Hc12 Hd21 Hc21.
  rewrite !write_position_offset.
  destruct (decide (0 <= i < 1717986919)) as [_|]; [|done].
  destruct (decide (0 <= j < 1717986919)) as [_|]; [|done].
  destruct (reaches_write uid tc1 (Int i) w), (reaches_write uid tc2 (Int j) w);
    try done.
  split.
  - rewrite !lookup_insert_eq, !insert_insert_eq. cbn [default]. f_equal.
    symmetry. apply pwrite_disjoint. unfold CHUNK_SIZE in *.
    destruct (decide (i < j)); [right|left]; lia.
  - symmetry. apply updateOne_comm; [|done|done].
    intros x. by apply chunk_matches_other.
Qed.

(** ** Recorded hashes *)

Lemma elem_of_updateOne_first {A} (q : A -> bool) (upd : A -> A) (l : list A) (y : A) :
  y ∈ updateOne q upd l ->
  y ∈ l \/ exists x, List.find q l = Some x /\ y = upd x.
Proof.
  induction l as [|x l IH]; simpl; [by left|].
  destruct (q x) eqn:E.
  - intros Hy. apply elem_of_cons in Hy as [->|Hy].
    + right. by exists x.
    + left. by right.
  - intros Hy. apply elem_of_cons in Hy as [->|Hy]; [left; left|].
    destruct (IH Hy) as [H|H]; [left; by right|by right].
Qed.

Lemma elem_of_updateOne_other {A} (q : A -> bool) (upd : A -> A) (l : list A)
    (x d : A) :
  x ∈ l -> List.find q l = Some d -> x <> d -> x ∈ updateOne q upd l.
Proof.
  induction l as [|z l IH]; simpl; [done|].
  destruct (q z) eqn:E.
  - intros Hx [= ->] Hne. apply elem_of_cons in Hx as [->|Hx]; [done|by right].
  - intros Hx Hf Hne. apply elem_of_cons in Hx as [->|Hx]; [left|].
    right. by apply IH.
Qed.

(** The sessions after a call of [finalizeUpload] run to its end. *)
Lemma finalizeUpload_uploads (now : Z) (uid : string) (w : world) :
  uploads (snd (finalizeUpload now uid w)) = uploads w \/
  exists d upd,
    findOne (has_id uid) (uploads w) = Some d /\ status d = UPLOADING /\
    (forall y, final_hash y = None -> final_hash (upd y) <> None ->
               status (upd y) = COMPLETED) /\
    (forall y, status (upd y) <> PROCESSING) /\
    (forall y, id (upd y) = id y) /\
    (forall y, status (upd y) = COMPLETED -> final_hash (upd y) <> None) /\
    uploads (snd (finalizeUpload now uid w)) =
      updateOne (has_id uid) upd
        (updateOne (has_id uid) (set_status PROCESSING now) (uploads w)).
Proof.
  destruct (findOne (has_id uid) (uploads w)) as [d|] eqn:Hd.
  - destruct (decide (status d = UPLOADING)) as [Hst|Hst].
    + right. destruct (upload_dir w !! target_path uid) as [f|] eqn:Hf.
      * exists d, (set_completed (SHA256 f) now).
        rewrite (finalizeUpload_completes now uid w d f) by done.
        repeat split; done.
      * exists d, (set_status FAILED now).
        rewrite (finalizeUpload_fails now uid w d) by done.
        repeat split; done.
    + left. rewrite finalizeUpload_guard; [done|]. intros d' Hd'.
      rewrite Hd in Hd'. by simplify_eq.
  - left. rewrite finalizeUpload_guard; [done|]. intros d' Hd'.
    by rewrite Hd in Hd'.
Qed.

Lemma after_store_hashes (now : Z) (uid : string) (w1 : world) (b : bool) :
  hash_means_completed w1 ->
  hash_means_completed (if b then snd (finalizeUpload now uid w1) else w1) /\
  forall u, u ∈ uploads w1 -> final_hash u <> None ->
            u ∈ uploads (if b then snd (finalizeUpload now uid w1) else w1).
Proof.
  intros J. destruct b; [|done].
  destruct (finalizeUpload_uploads now uid w1)
    as [Hsame|(d & upd & Hd & Hst & Hupd & Hnp & _ & _ & Heq)].
  { unfold hash_means_completed. rewrite Hsame. done. }
  unfold findOne in Hd.
  assert (Hdin : d ∈ uploads w1).
  { apply List.find_some in Hd as [Hd _]. by apply list_elem_of_In. }
  assert (Hdh : final_hash d = None).
  { destruct (final_hash d) eqn:E; [|done].
    assert (status d = COMPLETED) by (apply J; [done|by rewrite E]). congruence. }
  assert (Hfirst : List.find (has_id uid)
                     (updateOne (has_id uid) (set_status PROCESSING now) (uploads w1)) =
                   Some (set_status PROCESSING now d)).
  { apply find_updateOne; [|done]. intros y. apply has_id_set_status. }
  split.
  - unfold hash_means_completed. rewrite Heq. intros y Hy Hh.
    apply elem_of_updateOne_first in Hy as [Hy|(x & Hx & ->)].
    + apply elem_of_updateOne_first in Hy as [Hy|(x & Hx & ->)]; [by apply J|].
      rewrite Hd in Hx; simplify_eq; try (simpl in Hh; by rewrite Hdh in Hh).
    + rewrite Hfirst in Hx. simplify_eq. by apply Hupd.
  - intros u Hu Hh. rewrite Heq.
    apply (elem_of_updateOne_other _ _ _ _ (set_status PROCESSING now d)); [|done|].
    + apply (elem_of_updateOne_other _ _ _ _ d); [done|done|].
      intros ->. by rewrite Hdh in Hh.
    + intros ->. simpl in Hh. by rewrite Hdh in Hh.
Qed.

(** X12. Calls that run one after the other keep what the race of C1
    breaks.  If a hash is recorded on [COMPLETED] sessions only, as it is in
    a store that only [init] and such calls have written, then this holds
    again after any call of [receive_chunk], and every session that carries
    a hash is after the call exactly as it was: a recorded [final_hash] is
    never overwritten and its session never leaves [COMPLETED]. *)
Theorem recorded_hash_kept (now : Z) (disk : disk_outcome) (req : chunk_req)
    (w : world) :
  hash_means_completed w ->
  hash_means_completed (snd (receive_chunk now disk req w)) /\
  forall u, u ∈ uploads w -> final_hash u <> None ->
            u ∈ uploads (snd (receive_chunk now disk req w)).
Proof.
  intros J.
  destruct (receive_chunk_cases now disk req w)
    as [(_ & Hu & _) | (uid & p & idx & t & Hpath)].
  - unfold hash_means_completed. rewrite Hu. done.
  - destruct Hpath as (-> & Hu & Hi & [tc Ht] & [u Hup] & Hnr & Hp & Htemp).
    rewrite (receive_chunk_stored now req w uid p tc idx u t) by done.
    cbn [snd].
    exact (after_store_hashes now uid (stored_world now uid idx p (tdata t) w) _ J).
Qed.

(** ** The unique indexes *)

Lemma insertMany_chunks_any (docs : list chunk_doc) (w w' : world)
    (r : result unit) :
  insertMany_chunks docs w = (r, w') ->
  uploads w' = uploads w /\
  (NoDup (map chunk_key (chunks w)) -> NoDup (map chunk_key (chunks w'))).
Proof.
  revert w. induction docs as [|d docs IH]; intros w; simpl.
  - run. by intros [= _ <-].
  - run. destruct (existsb _ (chunks w)) eqn:E; [by intros [= _ <-]|].
    intros H. apply IH in H as [Hu Hk]. simpl in *. split; [done|].
    intros Hnd. apply Hk. rewrite map_app. simpl.
    apply NoDup_app. split; [done|]. split; [|apply NoDup_singleton].
    intros k Hk1 Hk2. apply list_elem_of_singleton in Hk2 as ->.
    apply list_elem_of_fmap in Hk1 as (c & Hkc & Hc).
    assert (existsb (chunk_matches (upload_id d) (Int (Z.of_N (chunk_index d))))
              (chunks w) = true);
      [|congruence].
    apply existsb_exists. exists c. split; [by apply list_elem_of_In|].
    unfold chunk_key in Hkc. injection Hkc as H1 H2.
    unfold chunk_matches. simpl. rewrite !bool_decide_eq_true_2; [done|lia|done].
Qed.

(** What [init] can do to the two collections, on any path. *)
Lemma init_world (now : Z) (req : init_req) (w : world) :
  (uploads (snd (init now req w)) = uploads w \/
   exists doc,
     List.find (has_id (id doc)) (uploads w) = None /\
     status doc = UPLOADING /\ final_hash doc = None /\
     uploads (snd (init now req w)) = uploads w ++ [doc]) /\
  (NoDup (map chunk_key (chunks w)) ->
   NoDup (map chunk_key (chunks (snd (init now req w))))).
Proof.
  unfold init, init_body.
  destruct (truthy_string (init_filename req)) as [fname|]; [|by split; [left|]].
  destruct (truthy_number (init_fileSize req)) as [fileSize|]; [|by split; [left|]].
  destruct (truthy_string (init_uploadId req)) as [uid|]; [|by split; [left|]].
  run. unfold findOne.
  destruct (List.find (has_id uid) (uploads w)) as [u|] eqn:Hfind; [by split; [left|]|].
  unfold insertOne_upload. run. rewrite (find_none_existsb _ _ Hfind). simpl.
  set (doc := {| id := uid; filename := fname |}).
  set (w1 := {| uploads := uploads w ++ [doc]; chunks := chunks w |}).
  destruct (0 <? length _)%nat.
  - destruct (insertMany_chunks _ w1) as [r w2] eqn:E.
    apply insertMany_chunks_any in E as [Hu Hk].
    destruct r as [[]|]; simpl; (split; [right; exists doc; by rewrite Hu|exact Hk]).
  - simpl. split; [right; by exists doc|done].
Qed.

Lemma find_none_not_in (uid : string) (l : list upload_doc) :
  List.find (has_id uid) l = None -> uid ∉ map id l.
Proof.
  intros Hnone Hin. apply list_elem_of_fmap in Hin as (u & -> & Hu).
  pose proof (List.find_none _ _ Hnone u) as H.
  unfold has_id in H. rewrite bool_decide_eq_true_2 in H; [|done].
  assert (true = false); [|done]. apply H. by apply list_elem_of_In.
Qed.

Lemma NoDup_map_filter {A B} (g : A -> B) (p : A -> bool) (l : list A) :
  NoDup (map g l) -> NoDup (map g (List.filter p l)).
Proof.
  induction l as [|x l IH]; simpl; [done|].
  intros Hnd. apply NoDup_cons in Hnd as [Hx Hnd]. destruct (p x); simpl.
  - apply NoDup_cons. split; [|by apply IH].
    intros Hin. apply Hx. apply list_elem_of_fmap in Hin as (y & -> & Hy).
    apply list_elem_of_fmap. exists y. split; [done|].
    apply list_elem_of_In, filter_In in Hy as [Hy _]. by apply list_elem_of_In.
  - by apply IH.
Qed.

Lemma ids_of_static (l : list upload_doc) :
  map id l = map (fun s => s.1.1.1.1) (map static_fields l).
Proof. rewrite map_map. done. Qed.

(** X13. The unique index on session ids is never put to the test by the
    server's own sequential calls: if no two sessions share an id, none do
    after [init], after [receive_chunk] or after a sweep of the janitor,
    whatever the request. *)
Theorem session_ids_stay_unique (now : Z) (w : world) :
  NoDup (map id (uploads w)) ->
  (forall req, NoDup (map id (uploads (snd (init now req w))))) /\
  (forall disk req, NoDup (map id (uploads (snd (receive_chunk now disk req w))))) /\
  NoDup (map id (uploads (cleanupOldUploads now w))).
Proof.
  intros Hnd. split; [|split].
  - intros req. destruct (init_world now req w) as [[->|(doc & Hnone & _ & _ & ->)] _];
      [done|].
    rewrite map_app. simpl. apply NoDup_app. split; [done|].
    split; [|apply NoDup_singleton].
    intros k Hk Hk'. apply list_elem_of_singleton in Hk' as ->.
    by apply (find_none_not_in _ _ Hnone).
  - intros disk req. rewrite ids_of_static.
    destruct (receive_chunk_cases now disk req w)
      as [(_ & Hu & _) | (uid & p & idx & t & Hpath)].
    + rewrite Hu, <- ids_of_static. done.
    + destruct Hpath as (-> & Hu & Hi & [tc Ht] & [u Hup] & Hnr & Hp & Htemp).
      rewrite (receive_chunk_stored now req w uid p tc idx u t) by done.
      cbn [snd]. rewrite after_store_static. simpl. by rewrite <- ids_of_static.
  - destruct (cleanup_collections now w) as [-> _]. by apply NoDup_map_filter.
Qed.

(** X14. Nor is the unique index on [(upload_id, chunk_index)]: if no two
    chunk records share a key, none do after [init] (even when its
    [insertMany] stops at a duplicate), after [receive_chunk] or after a
    sweep. *)
Theorem chunk_keys_stay_unique (now : Z) (w : world) :
  NoDup (map chunk_key (chunks w)) ->
  (forall req, NoDup (map chunk_key (chunks (snd (init now req w))))) /\
  (forall disk req,
     NoDup (map chunk_key (chunks (snd (receive_chunk now disk req w))))) /\
  NoDup (map chunk_key (chunks (cleanupOldUploads now w))).
Proof.
  intros Hnd. split; [|split].
  - intros req. by apply init_world.
  - intros disk req.
    destruct (receive_chunk_cases now disk req w)
      as [(Hc & _) | (uid & p & idx & t & Hpath)]; [by rewrite Hc|].
    destruct Hpath as (-> & Hu & Hi & [tc Ht] & [u Hup] & Hnr & Hp & Htemp).
    rewrite (receive_chunk_stored now req w uid p tc idx u t) by done.
    cbn [snd].
    destruct (chunks_after_store now uid (stored_world now uid idx p (tdata t) w)
                (bool_decide (receivedCount uid (stored_world now uid idx p (tdata t) w) =
                              totalCount uid (stored_world now uid idx p (tdata t) w))))
      as [-> _].
    simpl. by rewrite map_updateOne.
  - by destruct (cleanup_collections now w) as (_ & -> & _).
Qed.

(** The empty store records no hash, and neither [init] nor the janitor
    breaks [hash_means_completed]. *)
Lemma hash_means_completed_kept (now : Z) (w : world) :
  hash_means_completed empty_world /\
  (hash_means_completed w ->
   (forall req, hash_means_completed (snd (init now req w))) /\
   hash_means_completed (cleanupOldUploads now w)).
Proof.
  split.
  - intros u Hu. by apply elem_of_nil in Hu.
  - intros J. split.
    + intros req u. destruct (init_world now req w) as [[->|(doc & _ & _ & Hh & ->)] _];
        [by apply J|].
      intros Hu. apply elem_of_app in Hu as [Hu|Hu]; [by apply J|].
      apply list_elem_of_singleton in Hu as ->. by rewrite Hh.
    + intros u. destruct (cleanup_collections now w) as [-> _].
      intros Hu. apply list_elem_of_In, filter_In in Hu as [Hu _].
      apply J. by apply list_elem_of_In.
Qed.

(** ** The janitor, in full *)

(** X15. A sweep keeps a session exactly when it is [COMPLETED] or
    [PROCESSING], or was created no more than 24 hours before the sweep: a
    session created exactly 24 hours ago stays.  The sessions kept are
    unchanged and in their old order. *)
Theorem sweep_keeps_exactly (now : Z) (w : world) :
  (forall u,
     u ∈ uploads (cleanupOldUploads now w) <->
     u ∈ uploads w /\
     (status u = COMPLETED \/ status u = PROCESSING \/
      now - 24 * 60 * 60 * 1000 <= created_at u)) /\
  uploads (cleanupOldUploads now w) `sublist_of` uploads w.
Proof.
  destruct (cleanup_collections now w) as [-> _]. split.
  - intros u. rewrite list_elem_of_In. unfold deleteMany. rewrite filter_In.
    rewrite <- list_elem_of_In. unfold expired.
    change RETENTION_MS with (24 * 60 * 60 * 1000).
    destruct (status u); simpl; rewrite ?negb_true_iff, ?Z.ltb_ge, ?Z.ltb_lt;
      intuition (try discriminate; try lia).
  - unfold deleteMany. induction (uploads w) as [|x l IH]; simpl; [done|].
    destruct (negb _); [by apply sublist_skip|by apply sublist_cons].
Qed.

(** ** Names that [path.join] leaves alone *)

Lemma split_slash_plain (s : string) :
  has_slash s = false -> split_slash s = [s].
Proof.
  induction s as [|c s IH]; [done|]. simpl.
  destruct (Ascii.eqb c "/"); [done|]. simpl. intros H. by rewrite IH.
Qed.

Lemma ends_with_slash_plain (s : string) :
  has_slash s = false -> ends_with_slash s = false.
Proof.
  induction s as [|c s IH]; [done|]. simpl.
  destruct (Ascii.eqb c "/"); [done|]. simpl. intros H.
  destruct s; [done|]. by apply IH.
Qed.

Lemma ends_with_slash_app (a s : string) :
  s <> "" -> ends_with_slash (a +:+ s) = ends_with_slash s.
Proof.
  intros Hs. induction a as [|c a IH]; [done|]. simpl.
  destruct (a +:+ s) eqn:E; [|done].
  destruct a; simpl in E; [by subst|done].
Qed.

Lemma append_empty_r (s : string) : s +:+ "" = s.
Proof.
  induction s as [|c s IH]; [done|].
  unfold String.append in *. fold String.append in *. by rewrite IH.
Qed.

Lemma normalize_in_uploads (s : string) :
  normalize ("./uploads/" +:+ s) =
    let res := String.concat "/"
                 (reverse (foldl (push_segment true) ["uploads"] (split_slash s))) in
    match res with
    | EmptyString => if ends_with_slash ("./uploads/" +:+ s) then "./" else "."
    | _ => res +:+ (if ends_with_slash ("./uploads/" +:+ s) then "/" else "")
    end.
Proof. reflexivity. Qed.

(** The target path of an id that is a plain file name is that name inside
    the upload directory. *)
Lemma target_path_plain (uid : string) :
  plain_name uid = true -> target_path uid = "uploads/" +:+ uid.
Proof.
  unfold plain_name. intros H. apply andb_prop in H as [Hs Hd].
  apply negb_true_iff in Hs. apply negb_true_iff, bool_decide_eq_false in Hd.
  assert (Hne : uid <> "") by tauto.
  unfold target_path, path_join, UPLOAD_DIR.
  destruct uid as [|c uid]; [done|].
  change ("./uploads" +:+ "/" +:+ String c uid) with ("./uploads/" +:+ String c uid).
  rewrite normalize_in_uploads. cbv zeta.
  rewrite ends_with_slash_app by done.
  rewrite (ends_with_slash_plain _ Hs), (split_slash_plain _ Hs).
  cbn [foldl]. unfold push_segment.
  destruct (decide (String c uid = "" \/ String c uid = ".")) as [E|_]; [tauto|].
  destruct (decide (String c uid = "..")) as [E|_]; [tauto|].
  change (("uploads/" +:+ String c uid) +:+ "" = "uploads/" +:+ String c uid).
  apply append_empty_r.
Qed.

Lemma target_path_plain_inj (a b : string) :
  plain_name a = true -> plain_name b = true ->
  target_path a = target_path b -> a = b.
Proof.
  intros Ha Hb. rewrite !target_path_plain by done. intros H. by simplify_eq.
Qed.

Lemma targets_expired (old : upload_doc -> bool) (us : list upload_doc) (q : string) :
  existsb (targets q) (find_all old us) = true <->
  exists v, v ∈ us /\ old v = true /\ target_path (id v) = q.
Proof.
  rewrite existsb_exists. split.
  - intros (v & Hv & Ht). apply filter_In in Hv as [Hv Ho].
    exists v. rewrite list_elem_of_In. unfold targets in Ht.
    by apply bool_decide_eq_true in Ht.
  - intros (v & Hv & Ho & Ht). exists v. split.
    + apply filter_In. by rewrite <- list_elem_of_In.
    + unfold targets. by apply bool_decide_eq_true.
Qed.

Lemma swept_iff_expired (now : Z) (w : world) (u : upload_doc) :
  u ∈ uploads w ->
  u ∉ uploads (cleanupOldUploads now w) <-> expired (now - RETENTION_MS) u = true.
Proof.
  intros Hu. destruct (cleanup_collections now w) as [-> _].
  unfold deleteMany. rewrite list_elem_of_In, filter_In, <- list_elem_of_In.
  destruct (expired _ u); simpl.
  - split; [done|]. by intros _ [_ H].
  - split; [|done]. intros H. by destruct H.
Qed.

(** X16. What a sweep does to target files.  Files are unlinked by path:
    after a sweep no file is left at the target path of any session the
    sweep has deleted, every other path outside the scratch directory holds
    the file it held, and no file is ever created or rewritten; so a file
    that is the target of no deleted session is never removed, however
    old.  A session that stays keeps its
    file unless a deleted session has an id that [path.join] sends to the
    same path, which cannot happen when the ids are unique plain file
    names. *)
Theorem sweep_target_files (now : Z) (w : world) :
  (forall u, u ∈ uploads w -> u ∉ uploads (cleanupOldUploads now w) ->
     upload_dir (cleanupOldUploads now w) !! target_path (id u) = None) /\
  (forall q,
     in_temp_dir q = false ->
     (forall u, u ∈ uploads w -> u ∉ uploads (cleanupOldUploads now w) ->
                target_path (id u) <> q) ->
     upload_dir (cleanupOldUploads now w) !! q = upload_dir w !! q) /\
  (forall q f, upload_dir (cleanupOldUploads now w) !! q = Some f ->
               upload_dir w !! q = Some f) /\
  (NoDup (map id (uploads w)) ->
   (forall u, u ∈ uploads w -> plain_name (id u) = true) ->
   forall u, u ∈ uploads (cleanupOldUploads now w) ->
     upload_dir (cleanupOldUploads now w) !! target_path (id u) =
       upload_dir w !! target_path (id u)).
Proof.
  assert (Hkeep : forall q,
            (forall u, u ∈ uploads w -> u ∉ uploads (cleanupOldUploads now w) ->
                       target_path (id u) <> q) ->
            upload_dir (cleanupOldUploads now w) !! q = upload_dir w !! q).
  { intros q Hq. rewrite cleanup_target_files.
    destruct (existsb _ _) eqn:E; [|done].
    apply targets_expired in E as (v & Hv & Ho & Ht).
    destruct (Hq v Hv); [|done]. by apply (swept_iff_expired now w v Hv). }
  split; [|split; [intros q _; apply Hkeep|split]].
  - intros u Hu Hout. rewrite cleanup_target_files.
    destruct (existsb _ _) eqn:E; [done|].
    assert (existsb (targets (target_path (id u)))
              (find_all (expired (now - RETENTION_MS)) (uploads w)) = true);
      [|congruence].
    apply targets_expired. exists u. split; [done|]. split; [|done].
    by apply (swept_iff_expired now w u Hu).
  - intros q f. rewrite cleanup_target_files. by destruct (existsb _ _).
  - intros Hnd Hplain u Hin. apply Hkeep. intros v Hv Hout Heq.
    assert (Hu : u ∈ uploads w) by (by apply (cleanup_only_deletes now)).
    apply target_path_plain_inj in Heq; [|by apply Hplain..].
    assert (v = u) as ->; [|done].
    clear Hkeep Hplain Hin Hout. revert Hnd Hu Hv.
    induction (uploads w) as [|x l IH]; intros Hnd Hu Hv.
    { by apply elem_of_nil in Hu. }
    simpl in Hnd. apply NoDup_cons in Hnd as [Hx Hnd].
    apply elem_of_cons in Hu as [->|Hu]; apply elem_of_cons in Hv as [->|Hv]; try done.
    + destruct Hx. rewrite <- Heq. apply list_elem_of_fmap. by exists v.
    + destruct Hx. rewrite Heq. apply list_elem_of_fmap. by exists u.
    + by apply IH.
Qed.

Lemma sweep_temp_lookup (now : Z) (entries : list (string * temp_file)) (w : world) :
  NoDup (entries.*1) ->
  (forall p t, (p, t) ∈ entries -> temp_dir w !! p = Some t) ->
  exists w',
    sweep_temp now entries w = (Ok tt, w') /\
    forall q,
      temp_dir w' !! q =
        match temp_dir w !! q with
        | Some t => if decide (q ∈ entries.*1 /\ now - mtime t > SCRATCH_MS)
                    then None else Some t
        | None => None
        end.
Proof.
  revert w. induction entries as [|[p t] entries IH]; intros w Hnd Hin.
  - exists w. split; [done|]. intros q. destruct (temp_dir w !! q); [|done].
    destruct (decide _) as [[H _]|]; [|done]. by apply elem_of_nil in H.
  - rewrite fmap_cons in Hnd. cbn [fst] in Hnd. apply NoDup_cons in Hnd as [Hp Hnd].
    assert (Hpt : temp_dir w !! p = Some t) by (apply Hin; left).
    assert (Hrest : forall p' t', (p', t') ∈ entries -> p' <> p).
    { intros p' t' H' ->. apply Hp. apply list_elem_of_fmap. by exists (p, t'). }
    cbn [sweep_temp]. unfold unlink_temp. run.
    destruct (decide (now - mtime t > SCRATCH_MS)) as [Hold|Hyoung].
    + rewrite Hpt. simpl.
      set (w1 := {| uploads := uploads w; temp_dir := delete p (temp_dir w) |}).
      destruct (IH w1 Hnd) as (w' & -> & Hlook).
      { intros p' t' H'. simpl.
        rewrite lookup_delete_ne by (by apply not_eq_sym, (Hrest p' t')).
        apply Hin. by right. }
      exists w'. split; [done|]. intros q. rewrite Hlook. simpl.
      destruct (decide (q = p)) as [->|Hq].
      * rewrite lookup_delete_eq, Hpt. case_decide as H; [done|].
        destruct H. split; [left|done].
      * rewrite lookup_delete_ne by done. destruct (temp_dir w !! q) as [tq|]; [|done].
        apply decide_ext. rewrite ?fmap_cons, elem_of_cons. cbn [fst]. tauto.
    + destruct (IH w Hnd) as (w' & -> & Hlook).
      { intros p' t' H'. apply Hin. by right. }
      exists w'. split; [done|]. intros q. rewrite Hlook.
      destruct (temp_dir w !! q) as [tq|] eqn:Eq; [|done].
      apply decide_ext. rewrite ?fmap_cons, elem_of_cons. cbn [fst].
      split; [tauto|]. intros [[->|H1] H2]; [|done].
      rewrite Hpt in Eq. by simplify_eq.
Qed.

(** X17. The scratch sweep removes exactly the scratch files whose
    modification time lies more than one hour before the sweep; a file
    exactly one hour old stays, and so does every younger one, unchanged. *)
Theorem sweep_scratch_files (now : Z) (w : world) (p : string) :
  temp_dir (cleanupOldUploads now w) !! p =
    match temp_dir w !! p with
    | Some t => if decide (now - mtime t > 60 * 60 * 1000) then None else Some t
    | None => None
    end.
Proof.
  unfold cleanupOldUploads, cleanup_body. run.
  destruct (unlink_targets_ok (find_all (expired (now - RETENTION_MS)) (uploads w)) w)
    as (w1 & -> & Hu & Hc & Ht & Hd).
  set (w2 := {| uploads := deleteMany _ (uploads w1); temp_dir := temp_dir w1 |}).
  destruct (sweep_temp_lookup now (map_to_list (temp_dir w1)) w2) as (w3 & -> & Hlook).
  { apply NoDup_fst_map_to_list. }
  { intros q t Hq. simpl. by apply elem_of_map_to_list. }
  simpl. rewrite Hlook. simpl. rewrite Ht.
  destruct (temp_dir w !! p) as [t|] eqn:E; [|done].
  change SCRATCH_MS with (60 * 60 * 1000).
  apply decide_ext. split; [tauto|]. intros Hold. split; [|done].
  apply list_elem_of_fmap. exists (p, t).
  split; [done|]. apply elem_of_map_to_list. done.
Qed.

(** ** The client's queue and retries *)

Lemma take_take_drop {A} (l : list A) (m k : nat) :
  take m l ++ take k (drop m l) = take (m + k) l.
Proof.
  revert l. induction m as [|m IH]; intros l; simpl.
  - by rewrite drop_0.
  - destruct l as [|x l]; simpl; [by rewrite take_nil|]. by rewrite IH.
Qed.

Lemma launch_spec (q : list N) (a : Z) :
  0 <= a <= Z.of_nat Client.MAX_CONCURRENT ->
  Client.launch a q =
    (a + Z.of_nat (min (length q) (Z.to_nat (Z.of_nat Client.MAX_CONCURRENT - a))),
     drop (min (length q) (Z.to_nat (Z.of_nat Client.MAX_CONCURRENT - a))) q,
     take (min (length q) (Z.to_nat (Z.of_nat Client.MAX_CONCURRENT - a))) q).
Proof.
  revert a. induction q as [|i q IH]; intros a Ha; simpl.
  - f_equal. f_equal. lia.
  - destruct (a <? Z.of_nat Client.MAX_CONCURRENT) eqn:E.
    + apply Z.ltb_lt in E. rewrite IH by lia.
      replace (Z.to_nat (Z.of_nat Client.MAX_CONCURRENT - a))
        with (S (Z.to_nat (Z.of_nat Client.MAX_CONCURRENT - (a + 1)))) by lia.
      simpl. f_equal. f_equal. lia.
    + apply Z.ltb_ge in E.
      replace (Z.to_nat (Z.of_nat Client.MAX_CONCURRENT - a)) with 0%nat by lia.
      simpl. f_equal. f_equal. lia.
Qed.

Lemma queue_state_eq (a a' : Z) (q q' s s' : list N) (c c' : nat) :
  a = a' -> q = q' -> s = s' -> c = c' ->
  {| Client.activeUploads := a; Client.queue := q; Client.started := s;
     Client.completionChecks := c |} =
  {| Client.activeUploads := a'; Client.queue := q'; Client.started := s';
     Client.completionChecks := c' |}.
Proof. by intros -> -> -> ->. Qed.

Lemma run_queue_S (pending : list N) (n : nat) :
  Client.run_queue pending (S n) = Client.settle (Client.run_queue pending n).
Proof. done. Qed.

Lemma run_queue_state (pending : list N) (n : nat) :
  (n <= length pending)%nat ->
  Client.run_queue pending n =
    {| Client.activeUploads :=
         Z.of_nat (min (length pending) (Client.MAX_CONCURRENT + n)) - Z.of_nat n;
       Client.queue := drop (min (length pending) (Client.MAX_CONCURRENT + n)) pending;
       Client.started := take (min (length pending) (Client.MAX_CONCURRENT + n)) pending;
       Client.completionChecks := if decide (n = length pending) then 1 else 0 |}.
Proof.
  induction n as [|n IH]; intros Hn.
  - unfold Client.run_queue. simpl Nat.iter.
    unfold Client.processQueue. cbn [Client.activeUploads Client.queue].
    rewrite launch_spec by (unfold Client.MAX_CONCURRENT; lia).
    cbn [Client.started Client.completionChecks app].
    replace (Z.to_nat (Z.of_nat Client.MAX_CONCURRENT - 0)) with Client.MAX_CONCURRENT by lia.
    rewrite Nat.add_0_r. apply queue_state_eq; [lia|done|done|].
    destruct pending as [|i pending]; [done|].
    assert (Hl : length (drop (min (length (i :: pending)) Client.MAX_CONCURRENT) (i :: pending))
                 = (length (i :: pending) - min (length (i :: pending)) Client.MAX_CONCURRENT)%nat)
      by apply length_drop.
    unfold Client.MAX_CONCURRENT in *. cbn [length] in *.
    destruct (decide (_ /\ _)) as [[H _]|_]; [lia|].
    by destruct (decide (0%nat = S (length pending))).
  - rewrite run_queue_S, IH by lia. clear IH.
    unfold Client.settle, Client.processQueue. cbn [Client.activeUploads Client.queue
      Client.started Client.completionChecks].
    set (m := min (length pending) (Client.MAX_CONCURRENT + n)).
    rewrite launch_spec by (unfold Client.MAX_CONCURRENT in *; lia).
    rewrite length_drop.
    set (k := min (length pending - m)
                (Z.to_nat (Z.of_nat Client.MAX_CONCURRENT - (Z.of_nat m - Z.of_nat n - 1)))).
    assert (Hk : (m + k = min (length pending) (Client.MAX_CONCURRENT + S n))%nat)
      by (unfold Client.MAX_CONCURRENT in *; lia).
    rewrite take_take_drop, drop_drop, Hk.
    assert (Hlen : length (drop (min (length pending) (Client.MAX_CONCURRENT + S n)) pending)
                   = (length pending - min (length pending) (Client.MAX_CONCURRENT + S n))%nat)
      by apply length_drop.
    apply queue_state_eq; [lia|done|done|].
    destruct (decide (n = length pending)); [lia|].
    unfold Client.MAX_CONCURRENT in *.
    destruct (decide (_ /\ _)) as [[H1 H2]|H1];
      destruct (decide (S n = length pending)) as [H3|H3]; try done.
    + rewrite H2 in Hlen. simpl in Hlen. lia.
    + destruct H1. split; [lia|]. apply nil_length_inv. lia.
Qed.

(** X18. The client's queue: handed [pending] with nothing active, and after
    any number of uploads have settled, at most [MAX_CONCURRENT] uploads are
    active; the chunks started so far followed by those still queued are
    [pending] itself, so each is started once, in order, none skipped; and
    [checkCompletion] has run exactly when every one of them has settled. *)
Theorem queue_bounded_and_fair (pending : list N) (n : nat) :
  (n <= length pending)%nat ->
  0 <= Client.activeUploads (Client.run_queue pending n)
    <= Z.of_nat Client.MAX_CONCURRENT /\
  Client.started (Client.run_queue pending n) ++
    Client.queue (Client.run_queue pending n) = pending /\
  Client.activeUploads (Client.run_queue pending n) =
    Z.of_nat (length (Client.started (Client.run_queue pending n))) - Z.of_nat n /\
  (Client.queue (Client.run_queue pending n) <> [] ->
   Client.activeUploads (Client.run_queue pending n) = Z.of_nat Client.MAX_CONCURRENT) /\
  Client.completionChecks (Client.run_queue pending n) =
    (if decide (n = length pending) then 1 else 0)%nat.
Proof.
  intros Hn. rewrite run_queue_state by done.
  cbn [Client.activeUploads Client.queue Client.started Client.completionChecks].
  rewrite take_drop, length_take. unfold Client.MAX_CONCURRENT.
  split; [lia|]. split; [done|]. split; [lia|]. split; [|done].
  intros Hq. assert (length (drop (min (length pending) (3 + n)) pending) <> 0%nat) as Hl.
  { intros Hl. by apply nil_length_inv in Hl. }
  rewrite length_drop in Hl. lia.
Qed.

(** X19. One chunk's retries: the client waits 1, 2 and 4 seconds after the
    first three failed attempts and gives up for good exactly when a fourth
    attempt in a row fails; it succeeds with [k] retries exactly when the
    first [k <= 3] attempts fail and the next goes through. *)
Theorem retry_schedule (attempts : list bool) :
  fst (Client.uploadChunk attempts 0) =
    take (length (fst (Client.uploadChunk attempts 0))) [1000; 2000; 4000] /\
  match snd (Client.uploadChunk attempts 0) with
  | Client.Success k =>
      k = length (fst (Client.uploadChunk attempts 0)) /\
      take (S k) attempts = replicate k false ++ [true]
  | Client.Failure k =>
      k = Client.MAX_RETRIES /\
      length (fst (Client.uploadChunk attempts 0)) = Client.MAX_RETRIES /\
      take 4 attempts = replicate 4 false
  | Client.InFlight =>
      attempts = replicate (length attempts) false /\
      length attempts = length (fst (Client.uploadChunk attempts 0)) /\
      (length attempts <= Client.MAX_RETRIES)%nat
  end.
Proof.
  destruct attempts as [|[] [|[] [|[] [|[] l]]]]; cbn; repeat split;
    first [reflexivity | unfold Client.MAX_RETRIES; lia].
Qed.

(** ** What [COMPLETED] means *)

Lemma insertMany_chunks_elems (docs : list chunk_doc) (w w' : world)
    (r : result unit) (c : chunk_doc) :
  insertMany_chunks docs w = (r, w') ->
  c ∈ chunks w' -> c ∈ chunks w \/ c ∈ docs.
Proof.
  revert w. induction docs as [|d docs IH]; intros w; simpl.
  - run. intros [= _ <-]. by left.
  - run. destruct (existsb _ (chunks w)); [intros [= _ <-]; by left|].
    intros H Hc. destruct (IH _ H Hc) as [Hin|Hin]; [|right; by right].
    simpl in Hin. apply elem_of_app in Hin as [Hin|Hin]; [by left|].
    apply list_elem_of_singleton in Hin as ->. right. left.
Qed.

(** The chunk records [init] may add belong to the session it creates. *)
Lemma init_chunks (now : Z) (req : init_req) (w : world) (c : chunk_doc) :
  c ∈ chunks (snd (init now req w)) ->
  c ∈ chunks w \/
  (List.find (has_id (upload_id c)) (uploads w) = None /\
   exists doc, id doc = upload_id c /\ status doc = UPLOADING /\
               uploads (snd (init now req w)) = uploads w ++ [doc]).
Proof.
  unfold init, init_body.
  destruct (truthy_string (init_filename req)) as [fname|]; [|by left].
  destruct (truthy_number (init_fileSize req)) as [fileSize|]; [|by left].
  destruct (truthy_string (init_uploadId req)) as [uid|]; [|by left].
  run. unfold findOne.
  destruct (List.find (has_id uid) (uploads w)) as [u|] eqn:Hfind; [by left|].
  unfold insertOne_upload. run. rewrite (find_none_existsb _ _ Hfind). simpl.
  set (doc := {| id := uid; filename := fname |}).
  set (w1 := {| uploads := uploads w ++ [doc]; chunks := chunks w |}).
  destruct (0 <? length _)%nat; [|by left].
  destruct (insertMany_chunks _ w1) as [r w2] eqn:E.
  pose proof (insertMany_chunks_any _ _ _ _ E) as [Hu _].
  intros Hc.
  assert (Hc2 : c ∈ chunks w2) by (by destruct r as [[]|]).
  destruct (insertMany_chunks_elems _ _ _ _ c E Hc2) as [Hin|Hin]; [by left|].
  right. unfold chunkDocs_of in Hin. apply list_elem_of_fmap in Hin as (i & -> & _).
  simpl. split; [done|]. exists doc. split; [done|]. split; [done|].
  by destruct r as [[]|]; simpl; rewrite Hu.
Qed.

Lemma after_store_completed (now : Z) (uid : string) (w1 : world) :
  completed_sound w1 ->
  (forall c, c ∈ chunks w1 -> upload_id c = uid -> cstatus c = RECEIVED) ->
  completed_sound (snd (finalizeUpload now uid w1)).
Proof.
  intros K Hall.
  destruct (finalizeUpload_ok now uid w1) as (w2 & Hr & Hc & _).
  destruct (finalizeUpload_uploads now uid w1)
    as [Hsame|(d & upd & Hd & Hst & _ & Hnp & Hid & Hh & Heq)];
    rewrite Hr in *; cbn [snd] in *.
  { unfold completed_sound. rewrite Hsame, Hc. done. }
  unfold findOne in Hd.
  assert (Hdid : id d = uid).
  { apply List.find_some in Hd as [_ Hd]. by apply bool_decide_eq_true in Hd. }
  assert (Hfirst : List.find (has_id uid)
                     (updateOne (has_id uid) (set_status PROCESSING now) (uploads w1)) =
                   Some (set_status PROCESSING now d)).
  { apply find_updateOne; [|done]. intros y. apply has_id_set_status. }
  unfold completed_sound. rewrite Heq, Hc. intros y Hy Hco.
  apply elem_of_updateOne_first in Hy as [Hy|(x & Hx & ->)].
  - apply elem_of_updateOne_first in Hy as [Hy|(x & Hx & ->)]; [by apply K|].
    done.
  - rewrite Hfirst in Hx. simplify_eq. split; [by apply Hh|].
    intros c Hcin Hcu. apply Hall; [done|]. rewrite Hcu, Hid. done.
Qed.

Lemma received_stays (now : Z) (uid : string) (idx : number) (cs : list chunk_doc)
    (c : chunk_doc) :
  c ∈ updateOne (chunk_matches uid idx) (set_received now) cs ->
  exists c0, c0 ∈ cs /\ upload_id c = upload_id c0 /\
             (cstatus c0 = RECEIVED -> cstatus c = RECEIVED).
Proof.
  intros Hc. apply elem_of_updateOne_first in Hc as [Hc|(x & Hx & ->)].
  - by exists c.
  - exists x. split; [|done]. apply List.find_some in Hx as [Hx _].
    by apply list_elem_of_In.
Qed.

(** X20. [COMPLETED] keeps its meaning under calls that run one after the
    other.  In the empty store, and then after every [init], every
    [receive_chunk] and every sweep of the janitor, each [COMPLETED] session
    carries a [final_hash] and every chunk record of its id is [RECEIVED]. *)
Theorem completed_stays_sound (now : Z) (w : world) :
  completed_sound empty_world /\
  (completed_sound w ->
   (forall req, completed_sound (snd (init now req w))) /\
   (forall disk req, completed_sound (snd (receive_chunk now disk req w))) /\
   completed_sound (cleanupOldUploads now w)).
Proof.
  split; [intros u Hu; by apply elem_of_nil in Hu|].
  intros K. split; [|split].
  - intros req u Hu Hco.
    assert (Hold : u ∈ uploads w).
    { destruct (init_world now req w) as [[Hsame|(doc & _ & Hst & _ & Heq)] _].
      - by rewrite Hsame in Hu.
      - rewrite Heq in Hu. apply elem_of_app in Hu as [Hu|Hu]; [done|].
        apply list_elem_of_singleton in Hu as ->. congruence. }
    destruct (K u Hold Hco) as [Hh Hcs]. split; [done|].
    intros c Hc Hcu. destruct (init_chunks now req w c Hc) as [Hin|[Hnone _]].
    + by apply Hcs.
    + rewrite Hcu in Hnone. destruct (find_none_not_in _ _ Hnone).
      apply list_elem_of_fmap. by exists u.
  - intros disk req.
    destruct (receive_chunk_cases now disk req w)
      as [(Hc & Hu & _) | (uid & p & idx & t & Hpath)].
    { unfold completed_sound. rewrite Hc, Hu. done. }
    destruct Hpath as (-> & Hu & Hi & [tc Ht] & [u Hup] & Hnr & Hp & Htemp).
    rewrite (receive_chunk_stored now req w uid p tc idx u t) by done.
    cbn [snd].
    set (w1 := stored_world now uid idx p (tdata t) w).
    assert (K1 : completed_sound w1).
    { intros v Hv Hco. destruct (K v Hv Hco) as [Hh Hcs]. split; [done|].
      intros c Hc Hcu. simpl in Hc.
      destruct (received_stays _ _ _ _ _ Hc) as (c0 & Hc0 & Hid & Hrec).
      apply Hrec, Hcs; [done|congruence]. }
    case_bool_decide as Hcomplete; [|done].
    apply after_store_completed; [done|].
    intros c Hc Hcu. unfold receivedCount, totalCount in Hcomplete.
    pose proof (proj1 (filter_all_length _ _) Hcomplete c) as Hall.
    unfold is_received in Hall. apply (bool_decide_eq_true_1 _), Hall.
    apply list_elem_of_In, filter_In. split; [by apply list_elem_of_In|].
    by apply bool_decide_eq_true.
  - destruct (cleanup_collections now w) as (Hu & Hc & _).
    unfold completed_sound. rewrite Hu, Hc. intros u Hin.
    apply list_elem_of_In, filter_In in Hin as [Hin _]. apply K.
    by apply list_elem_of_In.
Qed.

(** X21. A 200 answer with counts tells what the status endpoint then
    shows: the session is there, [totalChunks] is the number of its chunk
    records and [receivedChunks] the number of those that are [RECEIVED];
    and when the answer says [isComplete], finalization has run to its end,
    so the session is no longer [UPLOADING]. *)
Theorem status_after_chunk (now : Z) (disk : disk_outcome) (req : chunk_req)
    (w : world) (uid : string) (b : bool) (rc tc : nat) :
  truthy_string (chunk_uploadId req) = Some uid ->
  fst (receive_chunk now disk req w) = ChunkStored b rc tc ->
  exists u cs,
    get_status uid (snd (receive_chunk now disk req w)) = StatusOk u cs /\
    length cs = tc /\
    length (List.filter is_received cs) = rc /\
    (b = true -> status u <> UPLOADING).
Proof.
  intros Hu Hr.
  destruct (receive_chunk_cases now disk req w)
    as [(_ & _ & Hns & _) | (uid' & p & idx & t & Hpath)].
  { by destruct (Hns b rc tc). }
  destruct Hpath as (-> & Hu' & Hi & [tc' Ht] & [u Hup] & Hnr & Hp & Htemp).
  simplify_eq. revert Hr.
  rewrite (receive_chunk_stored now req w uid p tc' idx u t) by done.
  set (w1 := stored_world now uid idx p (tdata t) w).
  set (complete := bool_decide _).
  cbn [fst snd]. intros [= <- <- <-].
  destruct (chunks_after_store now uid w1 complete) as [Hc _].
  assert (Hsess : is_Some (findOne (has_id uid)
            (uploads (if complete then snd (finalizeUpload now uid w1) else w1)))).
  { unfold findOne. eapply find_is_some_static; [apply after_store_static|].
    simpl. unfold findOne in Hup. rewrite Hup. eauto. }
  destruct Hsess as [u' Hu''].
  exists u', (find_all (of_upload uid) (chunks w1)).
  unfold get_status. rewrite Hu'', Hc. split; [done|]. split; [done|]. split; [done|].
  intros Hb. rewrite Hb in Hu''.
  destruct (finalizeUpload_ok now uid w1) as (w2 & Hrun & _).
  rewrite Hrun in Hu''. cbn [snd] in Hu''.
  by apply (fin_run_sealed 5 now uid FinFind w1 w2 Hrun I u').
Qed.

(** X22. Calls of [finalizeUpload] that run one after the other finalize
    once: whatever the first call did, every later call for the same upload
    stops at its guard and leaves the world exactly as the first call left
    it; and one call writes [final_hash] at most once. *)
Theorem finalization_runs_once (now : Z) (later : list Z) (uid : string) (w : world) :
  foldl (fun w t => snd (finalizeUpload t uid w))
        (snd (finalizeUpload now uid w)) later
    = snd (finalizeUpload now uid w) /\
  (hash_writes uid (trace (snd (finalizeUpload now uid w)))
     <= S (hash_writes uid (trace w)))%nat.
Proof.
  split.
  - destruct (finalizeUpload_ok now uid w) as (w1 & Hr & _).
    rewrite Hr. cbn [snd].
    assert (Hg : guarded uid w1) by (by eapply (fin_run_sealed 5 now uid FinFind w)).
    induction later as [|t later IH]; [done|]. simpl.
    by rewrite (finalizeUpload_guard t uid w1 Hg).
  - destruct (findOne (has_id uid) (uploads w)) as [d|] eqn:Hd.
    + destruct (decide (status d = UPLOADING)) as [Hst|Hst].
      * destruct (upload_dir w !! target_path uid) as [f|] eqn:Hf.
        -- rewrite (finalizeUpload_completes now uid w d f) by done.
           unfold hash_writes. simpl. rewrite List.filter_app, length_app. simpl.
           rewrite bool_decide_eq_true_2 by done. simpl. lia.
        -- rewrite (finalizeUpload_fails now uid w d) by done.
           unfold hash_writes. simpl. rewrite List.filter_app, length_app. simpl. lia.
      * rewrite finalizeUpload_guard; [simpl; lia|]. intros d' Hd'.
        rewrite Hd in Hd'. by simplify_eq.
    + rewrite finalizeUpload_guard; [simpl; lia|]. intros d' Hd'.
      by rewrite Hd in Hd'.
Qed.

(** ** The further properties at work *)

Lemma wf_empty_file : wf_file empty_file.
Proof.
  split; [simpl; lia|]. intros k [b Hb]. simpl in Hb. by rewrite lookup_empty in Hb.
Qed.

Lemma chunk_writes_commute_witness :
  upload_dir (snd (send_chunk 300 "t2" "u1" (Int 1) "3" [Byte.x62]
                     (snd (send_chunk 200 "t1" "u1" (Int 0) "3" [Byte.x61]
                             three_chunks)))) =
  upload_dir (snd (send_chunk 200 "t1" "u1" (Int 0) "3" [Byte.x61]
                     (snd (send_chunk 300 "t2" "u1" (Int 1) "3" [Byte.x62]
                             three_chunks)))).
Proof.
  apply (chunk_writes_commute 200 300 three_chunks "u1" "t1" "t2" "3" "3" 0 1
           [Byte.x61] [Byte.x62]).
  - discriminate.
  - lia.
  - lia.
  - vm_compute. discriminate.
  - vm_compute. discriminate.
Defined.

(** Past the safe offsets the order matters: the chunks of indices
    2147483648 and 2147483649 both land on the first byte, and the one
    written last stays. *)
Example unsafe_offsets_collide :
  read_byte
    (default empty_file
       (upload_dir (snd (send_chunk 300 "t2" "u1" (Int 2147483649) "3" [Byte.x62]
                           (snd (send_chunk 200 "t1" "u1" (Int 2147483648) "3"
                                   [Byte.x61] three_chunks))))
          !! target_path "u1")) 0 = Some Byte.x62 /\
  read_byte
    (default empty_file
       (upload_dir (snd (send_chunk 200 "t1" "u1" (Int 2147483648) "3" [Byte.x61]
                           (snd (send_chunk 300 "t2" "u1" (Int 2147483649) "3"
                                   [Byte.x62] three_chunks))))
          !! target_path "u1")) 0 = Some Byte.x61.
Proof. vm_compute. split; reflexivity. Qed.

Lemma chunk_blob_expected_length_witness :
  Z.of_nat (length (Client.chunk_blob abc 0)) = 3 /\
  0 < Z.of_nat (length (Client.chunk_blob abc 0)) <= Client.CHUNK_SIZE.
Proof.
  apply (chunk_blob_expected_length abc 0). reflexivity.
Defined.

Lemma finalizeUpload_outcome_witness :
  findOne (has_id "u1") (uploads (snd (finalizeUpload 300 "u1" both_marked))) =
    Some u1_completed_at_300 /\
  chunks (snd (finalizeUpload 300 "u1" both_marked)) = chunks both_marked /\
  upload_dir (snd (finalizeUpload 300 "u1" both_marked)) = upload_dir both_marked.
Proof.
  apply (finalizeUpload_outcome 300 "u1" both_marked (u1_uploading 10 1));
    reflexivity.
Defined.

Lemma unknown_upload_not_found_witness :
  fst (receive_chunk 200 DiskOk (chunk_of "t1" "ghost" (Int 0) "1") ghost_sent) =
    ChunkNotFound /\
  upload_dir (snd (receive_chunk 200 DiskOk (chunk_of "t1" "ghost" (Int 0) "1") ghost_sent)) = ∅.
Proof.
  rewrite (unknown_upload_not_found 200 DiskOk (chunk_of "t1" "ghost" (Int 0) "1")
             ghost_sent "ghost" "1" "t1" (Int 0) {| tdata := [Byte.x61]; mtime := 150 |});
    try reflexivity.
  split; reflexivity.
Defined.

Lemma chunk_rejects_missing_fields_witness :
  uploads (snd (receive_chunk 200 DiskOk
                  {| chunk_file := Some "t1"; chunk_uploadId := None;
                     chunk_chunkIndex := Some (Int 0); chunk_totalChunks := Some "1" |}
                  one_byte_sent)) = uploads one_byte_sent.
Proof.
  apply (chunk_rejects_missing_fields 200 DiskOk
           {| chunk_file := Some "t1"; chunk_uploadId := None;
              chunk_chunkIndex := Some (Int 0); chunk_totalChunks := Some "1" |}
           one_byte_sent).
  left. reflexivity.
Defined.





Lemma session_without_chunks_completes_witness :
  fst (receive_chunk 200 DiskOk (chunk_of "t1" "u1" (Int (-1)) "1") negative_sent) =
    ChunkStored true 0 0 /\
  upload_dir (snd (receive_chunk 200 DiskOk (chunk_of "t1" "u1" (Int (-1)) "1")
                     negative_sent)) !! target_path "u1" =
    Some (pwrite empty_file 0 [Byte.x61]).
Proof.
  destruct (session_without_chunks_completes 200 (chunk_of "t1" "u1" (Int (-1)) "1")
              negative_sent "u1" "t1" "1" (Int (-1)) u1_negative
              {| tdata := [Byte.x61]; mtime := 150 |}
              eq_refl eq_refl eq_refl eq_refl eq_refl eq_refl eq_refl eq_refl)
    as (H1 & H2 & _).
  split; [exact H1|exact H2].
Defined.

Lemma second_payload_discarded_witness :
  fst (receive_chunk 300 DiskOk (chunk_of "t2" "u1" (Int 0) "1") late_sent) =
    ChunkAlreadyUploaded /\
  upload_dir (snd (receive_chunk 300 DiskOk (chunk_of "t2" "u1" (Int 0) "1") late_sent)) =
    upload_dir (snd one_byte_call).
Proof.
  destruct (second_payload_discarded 200 300 DiskOk
              (chunk_of "t1" "u1" (Int 0) "1") (chunk_of "t2" "u1" (Int 0) "1")
              one_byte_sent "u1" "t1" "t2" "1" "1" (Int 0) (u1_uploading 10 1)
              (pending_chunk "u1" 0) {| tdata := [Byte.x61]; mtime := 150 |}
              {| tdata := [Byte.x62]; mtime := 250 |}
              eq_refl eq_refl eq_refl eq_refl eq_refl eq_refl eq_refl eq_refl
              eq_refl eq_refl eq_refl eq_refl) as (H1 & H2 & _).
  split; [exact H1|exact H2].
Defined.

Lemma late_sent_hashes : hash_means_completed late_sent.
Proof.
  intros u Hu _. apply list_elem_of_singleton in Hu as ->. reflexivity.
Qed.

Lemma recorded_hash_kept_witness :
  hash_means_completed (snd late_call) /\
  u1_completed ∈ uploads (snd late_call).
Proof.
  destruct (recorded_hash_kept 300 DiskOk (chunk_of "t2" "u1" (Int 1) "1") late_sent
              late_sent_hashes) as [H1 H2].
  split; [exact H1|]. apply H2; [left|discriminate].
Defined.

Lemma abandoned_ids : NoDup (map id (uploads abandoned)).
Proof. apply (bool_decide_unpack _). vm_compute. exact I. Qed.

Lemma abandoned_keys : NoDup (map chunk_key (chunks abandoned)).
Proof. apply (bool_decide_unpack _). vm_compute. exact I. Qed.

Lemma session_ids_stay_unique_witness :
  NoDup (map id (uploads (cleanupOldUploads (25 * HOUR) abandoned))) /\
  NoDup (map id (uploads (snd (init (25 * HOUR) (init_of "d.zip" 7 "u4") abandoned)))).
Proof.
  destruct (session_ids_stay_unique (25 * HOUR) abandoned abandoned_ids)
    as (H1 & _ & H3).
  split; [exact H3|exact (H1 (init_of "d.zip" 7 "u4"))].
Defined.

Lemma chunk_keys_stay_unique_witness :
  NoDup (map chunk_key
           (chunks (snd (init (26 * HOUR) (init_of "b.zip" (2 * CHUNK_SIZE + 1) "u2")
                           swept)))).
Proof.
  destruct (chunk_keys_stay_unique (25 * HOUR) abandoned abandoned_keys)
    as (_ & _ & H3).
  destruct (chunk_keys_stay_unique (26 * HOUR) swept H3) as (H1 & _).
  exact (H1 (init_of "b.zip" (2 * CHUNK_SIZE + 1) "u2")).
Defined.

Lemma littered_uploads : uploads littered = [u3_completed; u2_abandoned].
Proof. reflexivity. Qed.

Lemma littered_sessions (u : upload_doc) :
  u ∈ uploads littered -> id u = "u3" \/ id u = "u2".
Proof.
  rewrite littered_uploads. intros Hu.
  apply elem_of_cons in Hu as [->|Hu]; [by left|].
  apply list_elem_of_singleton in Hu as ->. by right.
Qed.

(** In the world of S6 with a stray file: the file of the abandoned session
    goes, the stray file and the file of the completed session stay. *)
Lemma sweep_target_files_witness :
  upload_dir (cleanupOldUploads (25 * HOUR) littered) !! target_path "u2" = None /\
  upload_dir littered !! "uploads/stray" = Some one_byte_file /\
  upload_dir (cleanupOldUploads (25 * HOUR) littered) !! "uploads/stray" =
    Some one_byte_file /\
  upload_dir (cleanupOldUploads (25 * HOUR) littered) !! target_path "u3" =
    upload_dir littered !! target_path "u3".
Proof.
  destruct (sweep_target_files (25 * HOUR) littered) as (Hgone & Hkeep & _ & Hplain).
  split; [|split; [reflexivity|split]].
  - assert (Hin : u2_abandoned ∈ uploads littered)
      by (rewrite littered_uploads; right; left).
    apply (Hgone u2_abandoned Hin).
    apply (swept_iff_expired (25 * HOUR) littered u2_abandoned Hin). reflexivity.
  - rewrite Hkeep; [reflexivity|reflexivity|].
    intros u Hu _. destruct (littered_sessions u Hu) as [-> | ->]; discriminate.
  - assert (Hnames : forall u, u ∈ uploads littered -> plain_name (id u) = true).
    { intros u Hu. destruct (littered_sessions u Hu) as [-> | ->]; reflexivity. }
    apply (Hplain abandoned_ids Hnames u3_completed).
    apply cleanup_keeps_sealed; [rewrite littered_uploads; left|by left].
Defined.

(** Two ids that join to one path share one file: deleting the abandoned
    session [./a] unlinks the file of the completed session [a]. *)
Example sweep_unlinks_shared_path :
  map (fun u => (id u, status u)) (uploads shared_path) =
    [("a", COMPLETED); ("./a", UPLOADING)] /\
  target_path "./a" = target_path "a" /\
  upload_dir shared_path !! target_path "a" =
    Some {| data := {[ 0 := Byte.x63 ]}; size := 1 |} /\
  map id (uploads (cleanupOldUploads (25 * HOUR) shared_path)) = ["a"] /\
  upload_dir (cleanupOldUploads (25 * HOUR) shared_path) !! target_path "a" = None.
Proof. vm_compute. repeat split; reflexivity. Qed.

Lemma queue_bounded_and_fair_witness :
  Client.started (Client.run_queue [0; 1; 2; 3; 4]%N 1) ++
    Client.queue (Client.run_queue [0; 1; 2; 3; 4]%N 1) = [0; 1; 2; 3; 4]%N /\
  Client.activeUploads (Client.run_queue [0; 1; 2; 3; 4]%N 1) = 3.
Proof.
  destruct (queue_bounded_and_fair [0; 1; 2; 3; 4]%N 1) as (_ & H2 & _ & H4 & _).
  - simpl. lia.
  - split; [exact H2|]. apply H4. vm_compute. discriminate.
Defined.

Lemma status_after_chunk_witness :
  exists u cs,
    get_status "u1" (snd one_byte_call) = StatusOk u cs /\
    length cs = 1%nat /\ length (List.filter is_received cs) = 1%nat /\
    (true = true -> status u <> UPLOADING).
Proof.
  apply (status_after_chunk 200 DiskOk (chunk_of "t1" "u1" (Int 0) "1") one_byte_sent
           "u1" true 1 1); reflexivity.
Defined.

(** X23. Where the bytes of a stored chunk land.  After a call that stores
    a payload that is not empty, the target file reads the payload from the
    position of the chunk on, which is [chunk_index * CHUNK_SIZE] for an
    index from 0 to 1717986918 and the start of the file for any other
    number; it reads what it read before everywhere else inside its old
    length, and reads zero in the gap the write may leave between the old
    end and the chunk; it is as long as before or ends where the payload
    ends, whichever is more. *)
Theorem stored_chunk_reads (now : Z) (req : chunk_req) (w : world)
    (uid p tc : string) (idx : number) (u : upload_doc) (t : temp_file) (k : Z) :
  truthy_string (chunk_uploadId req) = Some uid ->
  chunk_chunkIndex req = Some idx ->
  truthy_string (chunk_totalChunks req) = Some tc ->
  findOne (has_id uid) (uploads w) = Some u ->
  already_received (findOne (chunk_matches uid idx) (chunks w)) = false ->
  chunk_file req = Some p ->
  temp_dir w !! p = Some t ->
  tdata t <> [] ->
  wf_file (default empty_file (upload_dir w !! target_path uid)) ->
  exists (f : file) (pos : Z),
    upload_dir (snd (receive_chunk now DiskOk req w)) !! target_path uid = Some f /\
    pos = match idx with
          | Int z => if decide (0 <= z < 1717986919) then z * CHUNK_SIZE else 0
          | _ => 0
          end /\
    wf_file f /\
    size f = Z.max (size (default empty_file (upload_dir w !! target_path uid)))
                   (pos + Z.of_nat (length (tdata t))) /\
    read_byte f k =
      if decide (pos <= k < pos + Z.of_nat (length (tdata t)))
      then tdata t !! Z.to_nat (k - pos)
      else if decide (0 <= k < size (default empty_file
                                       (upload_dir w !! target_path uid)))
      then read_byte (default empty_file (upload_dir w !! target_path uid)) k
      else if decide (size (default empty_file (upload_dir w !! target_path uid))
                      <= k < pos)
      then Some Byte.x00
      else None.
Proof.
  intros Hu Hi Ht Hup Hnr Hp Htemp Hne Hwf.
  rewrite (receive_chunk_stored now req w uid p tc idx u t) by done.
  cbn [snd].
  destruct (chunks_after_store now uid (stored_world now uid idx p (tdata t) w)
              (bool_decide (receivedCount uid (stored_world now uid idx p (tdata t) w) =
                            totalCount uid (stored_world now uid idx p (tdata t) w))))
    as [_ ->].
  simpl. rewrite lookup_insert_eq.
  pose proof (write_position_nonneg (offset_of idx)) as Hoff.
  eexists _, (write_position (offset_of idx)).
  split; [done|]. split; [apply write_position_offset|].
  split; [by apply pwrite_wf|]. by apply pwrite_reads.
Qed.

Lemma stored_chunk_reads_witness :
  exists f,
    upload_dir (snd (receive_chunk 200 DiskOk (chunk_of "t9" "u1" (Int 7) "3") stray_sent))
      !! target_path "u1" = Some f /\
    size f = 7 * CHUNK_SIZE + 1 /\
    read_byte f (7 * CHUNK_SIZE) = Some Byte.x7a /\
    read_byte f 12 = Some Byte.x00.
Proof.
  assert (Hne : [Byte.x7a] <> []) by discriminate.
  destruct (stored_chunk_reads 200 (chunk_of "t9" "u1" (Int 7) "3") stray_sent
              "u1" "t9" "3" (Int 7) (u1_uploading (2 * CHUNK_SIZE + 1) 3)
              {| tdata := [Byte.x7a]; mtime := 150 |} (7 * CHUNK_SIZE)
              eq_refl eq_refl eq_refl eq_refl eq_refl eq_refl eq_refl Hne
              wf_empty_file) as (f & pos & Hf & -> & _ & Hs & Hr).
  destruct (stored_chunk_reads 200 (chunk_of "t9" "u1" (Int 7) "3") stray_sent
              "u1" "t9" "3" (Int 7) (u1_uploading (2 * CHUNK_SIZE + 1) 3)
              {| tdata := [Byte.x7a]; mtime := 150 |} 12
              eq_refl eq_refl eq_refl eq_refl eq_refl eq_refl eq_refl Hne
              wf_empty_file) as (f' & pos' & Hf' & -> & _ & _ & Hr').
  rewrite Hf in Hf'. injection Hf' as <-.
  exists f. split; [exact Hf|]. split; [exact Hs|]. split; [exact Hr|exact Hr'].
Defined.
